(** * image-couv: the image editor's codec, service client and controller

    A shallow embedding of [src/App.tsx] (the data-URL helpers and the [App]
    component's state and handlers) and of the Gemini service client
    ([editImage]), followed by the properties the specification states
    about them.

    Conventions.
    - A JavaScript string is a sequence of UTF-16 code units; a code unit
      is an [N].  String literals of the source are written with [lit].
    - A value that may be [null]/[undefined] is an [option].
    - An awaited operation is modelled by its completion ([Resolved] or
      [Rejected]); what the outside world answers (the file reader, the
      remote model) is an explicit input.
    - React state is a record; every setter call replaces one field.
    - Logging ([console.warn], [console.error]) changes no state and is
      left out. *)

From Stdlib Require Import List String Ascii NArith Arith Bool Lia.
From Stdlib.Strings Require Import Byte.
Import ListNotations.

Local Open Scope N_scope.
Local Open Scope list_scope.

(* ================================================================== *)
(** ** JavaScript strings *)

Module Js.

Definition code_unit := N.
Definition jsstring := list code_unit.

(** A source literal, one code unit per (ASCII) character. *)
Definition lit (s : string) : jsstring :=
  List.map N_of_ascii (list_ascii_of_string s).

(** Truthiness of a string: only the empty string is falsy. *)
Definition truthy (s : jsstring) : bool :=
  match s with [] => false | _ :: _ => true end.

(** [a || b] on a possibly undefined string. *)
Definition or_default (a : option jsstring) (b : jsstring) : jsstring :=
  match a with
  | Some s => if truthy s then s else b
  | None => b
  end.

(** [`${x}`] of a possibly undefined string: [undefined] prints as the
    nine letters of its name. *)
Definition template (a : option jsstring) : jsstring :=
  match a with
  | Some s => s
  | None => lit "undefined"
  end.

(** LineTerminator of ECMAScript: LF, CR, U+2028, U+2029.  The regular
    expression atom [.] (no [s] flag) matches every code unit but these. *)
Definition is_line_terminator (c : code_unit) : bool :=
  (c =? 10) || (c =? 13) || (c =? 8232) || (c =? 8233).

Definition dot_matches (c : code_unit) : bool := negb (is_line_terminator c).

(** Matching a literal at the head of the input. *)
Fixpoint strip_prefix (p s : jsstring) : option jsstring :=
  match p, s with
  | [], _ => Some s
  | _ :: _, [] => None
  | a :: p', b :: s' => if a =? b then strip_prefix p' s' else None
  end.

(** Values thrown (or promises rejected with): an [Error] instance with
    its [message], or any other value. *)
Inductive Thrown :=
| ErrorObject (message : jsstring)
| OtherValue.

(** [err instanceof Error ? err.message : fallback] *)
Definition message_or (t : Thrown) (fallback : jsstring) : jsstring :=
  match t with
  | ErrorObject m => m
  | OtherValue => fallback
  end.

Inductive Completion (A : Type) :=
| Resolved (a : A)
| Rejected (t : Thrown).
Arguments Resolved {A} a.
Arguments Rejected {A} t.

End Js.
Import Js.

(* ================================================================== *)
(** ** Data URL codec ([src/App.tsx], lines 5-18) *)

Module Codec.

(** A [File]: its bytes and its declared MIME type. *)
Record File := mkFile { file_bytes : list byte; file_type : jsstring }.

(** *** Base64 (RFC 4648), as produced by the browser's file reader *)

Definition b64_char (i : N) : code_unit :=
  if i <? 26 then 65 + i
  else if i <? 52 then 97 + (i - 26)
  else if i <? 62 then 48 + (i - 52)
  else if i =? 62 then 43
  else 47.

Definition pad : code_unit := 61.

Fixpoint base64 (bs : list byte) : jsstring :=
  match bs with
  | [] => []
  | [a] =>
      let x := Byte.to_N a in
      [b64_char (x / 4); b64_char ((x mod 4) * 16); pad; pad]
  | [a; b] =>
      let x := Byte.to_N a in
      let y := Byte.to_N b in
      [b64_char (x / 4); b64_char ((x mod 4) * 16 + y / 16);
       b64_char ((y mod 16) * 4); pad]
  | a :: b :: c :: rest =>
      let x := Byte.to_N a in
      let y := Byte.to_N b in
      let z := Byte.to_N c in
      b64_char (x / 4) :: b64_char ((x mod 4) * 16 + y / 16)
        :: b64_char ((y mod 16) * 4 + z / 64) :: b64_char (z mod 64)
        :: base64 rest
  end.

(** Modelled from the spec: [FileReader.readAsDataURL] is a browser
    primitive, whose code is not in the repository.  Section 4.1 gives its
    result the form [data:<mimeType>;base64,<payload>], with the file's
    declared type and the base64 encoding of its bytes. *)
Definition readAsDataURL (file : File) : jsstring :=
  lit "data:" ++ file_type file ++ lit ";base64," ++ base64 (file_bytes file).

(** What the reader does with a started read: it fires [onload] or
    [onerror]. *)
Inductive ReadOutcome := Loaded | ReadError.

(** [fileToDataUrl]: resolves with [reader.result] on load; on error it
    rejects with the event object (which is not an [Error]). *)
Definition fileToDataUrl (file : File) (o : ReadOutcome) : Completion jsstring :=
  match o with
  | Loaded => Resolved (readAsDataURL file)
  | ReadError => Rejected OtherValue
  end.

(** *** The regular expression [/^data:(.+);base64,(.+)$/]

    A backtracking matcher in continuation-passing style.  [dot_plus s acc k]
    is the greedy group [(.+)] applied to [s]: it consumes one code unit
    accepted by [.], first tries to consume more, and only when everything
    after that fails hands the captured text and the remaining input to [k]. *)
Fixpoint dot_plus {A : Type} (s acc : jsstring)
    (k : jsstring -> jsstring -> option A) : option A :=
  match s with
  | [] => None
  | c :: s' =>
      if dot_matches c then
        match dot_plus s' (acc ++ [c]) k with
        | Some r => Some r
        | None => k (acc ++ [c]) s'
        end
      else None
  end.

(** [$] without the [m] flag: only the end of the input. *)
Definition at_end {A : Type} (r : A) (s : jsstring) : option A :=
  match s with [] => Some r | _ :: _ => None end.

(** What follows the first group: [;base64,], the second group, [$]. *)
Definition after_type (g1 s2 : jsstring) : option (jsstring * jsstring) :=
  match strip_prefix (lit ";base64,") s2 with
  | None => None
  | Some s3 => dot_plus s3 [] (fun g2 s4 => at_end (g1, g2) s4)
  end.

(** [dataUrl.match(/^data:(.+);base64,(.+)$/)]: the two captured groups. *)
Definition match_data_url (dataUrl : jsstring) : option (jsstring * jsstring) :=
  match strip_prefix (lit "data:") dataUrl with
  | None => None
  | Some s1 => dot_plus s1 [] after_type
  end.

Record ParsedDataUrl := mkParsed { base64_of : jsstring; mimeType_of : jsstring }.

(** [parseDataUrl]: either the parsed record or the thrown [Error]. *)
Definition parseDataUrl (dataUrl : jsstring) : ParsedDataUrl + Thrown :=
  match match_data_url dataUrl with
  | None => inr (ErrorObject (lit "Invalid data URL format"))
  | Some (g1, g2) => inl {| mimeType_of := g1; base64_of := g2 |}
  end.

End Codec.
Import Codec.

(* ================================================================== *)
(** ** Edit service client ([services/geminiService], [editImage]) *)

Module Service.

Record InlineData := mkInline {
  data : option jsstring;
  mimeType : option jsstring }.

Record Part := mkPart {
  inlineData : option InlineData;
  text : option jsstring }.

Record Content := mkContent { parts : option (list Part) }.
Record Candidate := mkCandidate { content : option Content }.
Record GenerateContentResponse := mkResponse {
  candidates : option (list Candidate) }.

Inductive Modality := TEXT | IMAGE | AUDIO.

Record GenerateContentRequest := mkRequest {
  model : jsstring;
  contents : list Part;
  responseModalities : list Modality }.

(** What [await ai.models.generateContent(...)] does: it yields a response
    or throws. *)
Inductive ServiceOutcome :=
| Returned (response : GenerateContentResponse)
| Threw (t : Thrown).

(** [response.candidates?.[0]?.content?.parts || []] *)
Definition response_parts (response : GenerateContentResponse) : list Part :=
  match candidates response with
  | Some (c :: _) =>
      match content c with
      | Some ct => match parts ct with Some ps => ps | None => [] end
      | None => []
      end
  | Some [] => []
  | None => []
  end.

(** The data URL built from an inline part (lines 40-42). *)
Definition inline_data_url (d : InlineData) : jsstring :=
  let generatedBase64 := data d in
  let generatedMimeType := or_default (mimeType d) (lit "image/png") in
  lit "data:" ++ generatedMimeType ++ lit ";base64," ++ template generatedBase64.

(** The [for ... of] loop with its early [return] (lines 38-44). *)
Fixpoint scan_parts (ps : list Part) : option jsstring :=
  match ps with
  | [] => None
  | part :: rest =>
      match inlineData part with
      | Some d => Some (inline_data_url d)
      | None => scan_parts rest
      end
  end.

Definition edit_request (base64Data mimeType prompt : jsstring)
  : GenerateContentRequest :=
  {| model := lit "gemini-2.5-flash-image";
     contents :=
       [ {| inlineData := Some {| data := Some base64Data;
                                  mimeType := Some mimeType |};
            text := None |};
         {| inlineData := None; text := Some prompt |} ];
     responseModalities := [IMAGE] |}.

(** The body of the [try] block: the awaited call, the loop, the [throw]
    after the loop. *)
Definition editImage_try (base64Data mimeType prompt : jsstring)
    (generateContent : GenerateContentRequest -> ServiceOutcome)
  : Completion jsstring :=
  match generateContent (edit_request base64Data mimeType prompt) with
  | Threw t => Rejected t
  | Returned response =>
      match scan_parts (response_parts response) with
      | Some url => Resolved url
      | None =>
          Rejected (ErrorObject
                      (lit "No image data found in the Gemini API response."))
      end
  end.

(** [editImage]: the [try] block under its [catch], which rethrows every
    failure of the block as a new [Error]. *)
Definition editImage (base64Data mimeType prompt : jsstring)
    (generateContent : GenerateContentRequest -> ServiceOutcome)
  : Completion jsstring :=
  match editImage_try base64Data mimeType prompt generateContent with
  | Resolved url => Resolved url
  | Rejected (ErrorObject message) =>
      Rejected (ErrorObject (lit "Failed to edit image: " ++ message))
  | Rejected OtherValue =>
      Rejected (ErrorObject
                  (lit "An unknown error occurred while editing the image."))
  end.

End Service.
Import Service.

(* ================================================================== *)
(** ** Application state controller ([App], [src/App.tsx] lines 116-167) *)

Module Controller.

(** A blob URL handed out by [URL.createObjectURL]; the browser numbers
    them.  As a string it is never empty, so a non-null one is truthy. *)
Definition ObjectURL := nat.

(** The six [useState] slots. *)
Record AppState := mkApp {
  imageFile : option File;
  imagePreviewUrl : option ObjectURL;
  prompt : jsstring;
  generatedImageUrl : option jsstring;
  isLoading : bool;
  error : option jsstring }.

Definition setImageFile (v : option File) (s : AppState) : AppState :=
  mkApp v (imagePreviewUrl s) (prompt s) (generatedImageUrl s)
        (isLoading s) (error s).
Definition setImagePreviewUrl (v : option ObjectURL) (s : AppState) : AppState :=
  mkApp (imageFile s) v (prompt s) (generatedImageUrl s)
        (isLoading s) (error s).
Definition setPrompt (v : jsstring) (s : AppState) : AppState :=
  mkApp (imageFile s) (imagePreviewUrl s) v (generatedImageUrl s)
        (isLoading s) (error s).
Definition setGeneratedImageUrl (v : option jsstring) (s : AppState) : AppState :=
  mkApp (imageFile s) (imagePreviewUrl s) (prompt s) v
        (isLoading s) (error s).
Definition setIsLoading (v : bool) (s : AppState) : AppState :=
  mkApp (imageFile s) (imagePreviewUrl s) (prompt s) (generatedImageUrl s)
        v (error s).
Definition setError (v : option jsstring) (s : AppState) : AppState :=
  mkApp (imageFile s) (imagePreviewUrl s) (prompt s) (generatedImageUrl s)
        (isLoading s) v.

(** The initial value of the prompt slot (lines 119-121); its accented
    letters are given by their code units. *)
Definition initial_prompt : jsstring :=
  lit "L'image que j'envoie doit " ++ [234] ++ lit "tre utilis" ++ [233]
  ++ lit "e comme couverture d'un livre qui sera plac" ++ [233]
  ++ lit " dans un d" ++ [233] ++ lit "cor correspondant " ++ [224]
  ++ lit " l'image de base tout en restant naturel. L'image du livre ne doit pas "
  ++ [234] ++ lit "tre modifi" ++ [233] ++ lit "e, c'est-" ++ [224]
  ++ lit "-dire garder la m" ++ [234] ++ lit "me typographie, m" ++ [234]
  ++ lit "me couleur, m" ++ [234] ++ lit "mes dessins.".

Definition initial_state : AppState :=
  {| imageFile := None; imagePreviewUrl := None; prompt := initial_prompt;
     generatedImageUrl := None; isLoading := false; error := None |}.

(** A started [handleSubmit] that is suspended at one of its two [await]s.
    It holds what its closure captured ([imageFile], [prompt]) and, once
    [editImage] has been called, the arguments of that call. *)
Inductive Stage :=
| ReadingFile
| CallingService (base64 mimeType : jsstring).

Record Task := mkTask {
  task_file : File;
  task_prompt : jsstring;
  task_stage : Stage }.

(** The component together with what it shares with the browser: the
    dependency captured by the mounted effect's cleanup ([None] once the
    component is unmounted), the blob URL store, the calls made to
    [URL.revokeObjectURL], and the suspended submissions. *)
Record World := mkWorld {
  app : AppState;
  effect : option (option ObjectURL);
  next_url : nat;
  blob_store : list (ObjectURL * File);
  revoke_log : list ObjectURL;
  pending : list Task }.

Definition upd_app (f : AppState -> AppState) (w : World) : World :=
  mkWorld (f (app w)) (effect w) (next_url w) (blob_store w)
          (revoke_log w) (pending w).
Definition set_effect (e : option (option ObjectURL)) (w : World) : World :=
  mkWorld (app w) e (next_url w) (blob_store w) (revoke_log w) (pending w).
Definition set_pending (ts : list Task) (w : World) : World :=
  mkWorld (app w) (effect w) (next_url w) (blob_store w) (revoke_log w) ts.

(** [URL.createObjectURL(file)]: a fresh URL, registered for the file. *)
Definition createObjectURL (file : File) (w : World) : ObjectURL * World :=
  (next_url w,
   mkWorld (app w) (effect w) (S (next_url w))
           ((next_url w, file) :: blob_store w) (revoke_log w) (pending w)).

(** [URL.revokeObjectURL(u)]: the URL stops resolving; the call is logged. *)
Definition revokeObjectURL (u : ObjectURL) (w : World) : World :=
  mkWorld (app w) (effect w) (next_url w)
          (filter (fun e => negb (Nat.eqb (fst e) u)) (blob_store w))
          (revoke_log w ++ [u]) (pending w).

(** [if (url) URL.revokeObjectURL(url)] *)
Definition revoke_if_set (url : option ObjectURL) (w : World) : World :=
  match url with
  | Some u => revokeObjectURL u w
  | None => w
  end.

(** What a blob URL shows: the file it is registered for, if still live. *)
Fixpoint resolve (store : list (ObjectURL * File)) (u : ObjectURL)
  : option File :=
  match store with
  | [] => None
  | (u', f) :: rest => if Nat.eqb u' u then Some f else resolve rest u
  end.

(** The image the uploader and the "Original" pane display. *)
Definition preview (w : World) : option File :=
  match imagePreviewUrl (app w) with
  | Some u => resolve (blob_store w) u
  | None => None
  end.

(** *** The effect of lines 126-133

    After a render in which [imagePreviewUrl] differs from the value the
    mounted effect captured, React runs that effect's cleanup (with the
    captured value) and mounts the effect again; at unmount it runs the
    cleanup a last time. *)
Definition option_url_eqb (a b : option ObjectURL) : bool :=
  match a, b with
  | Some x, Some y => Nat.eqb x y
  | None, None => true
  | _, _ => false
  end.

Definition commit (w : World) : World :=
  match effect w with
  | None => w
  | Some dep =>
      if option_url_eqb dep (imagePreviewUrl (app w)) then w
      else set_effect (Some (imagePreviewUrl (app w))) (revoke_if_set dep w)
  end.

Definition unmount (w : World) : World :=
  match effect w with
  | None => w
  | Some dep => set_effect None (revoke_if_set dep w)
  end.

(** *** [handleImageChange] (lines 135-144)

    The handler reads the [imagePreviewUrl] of the last render, which is
    the current one: every turn of the event loop ends with a render. *)
Definition handleImageChange (file : option File) (w : World) : World :=
  match file with
  | None => w
  | Some f =>
      let w1 := revoke_if_set (imagePreviewUrl (app w)) w in
      let (u, w2) := createObjectURL f w1 in
      upd_app (fun s =>
                 setError None
                   (setGeneratedImageUrl None
                      (setImagePreviewUrl (Some u)
                         (setImageFile (Some f) s)))) w2
  end.

(** *** [handleSubmit] (lines 146-167) *)

Definition validation_message : jsstring :=
  lit "Please upload an image and provide a prompt.".

(** Lines 147-156, up to the first [await]: the guard, the three setters,
    and the file read that [fileToDataUrl] starts. *)
Definition handleSubmit (w : World) : World :=
  match imageFile (app w) with
  | Some f =>
      if truthy (prompt (app w)) then
        set_pending (pending w ++ [mkTask f (prompt (app w)) ReadingFile])
          (upd_app (fun s =>
                      setGeneratedImageUrl None
                        (setError None (setIsLoading true s))) w)
      else upd_app (setError (Some validation_message)) w
  | None => upd_app (setError (Some validation_message)) w
  end.

Fixpoint remove_nth {A : Type} (i : nat) (l : list A) : list A :=
  match i, l with
  | _, [] => []
  | O, _ :: l' => l'
  | S i', a :: l' => a :: remove_nth i' l'
  end.

Fixpoint replace_nth {A : Type} (i : nat) (a : A) (l : list A) : list A :=
  match i, l with
  | _, [] => []
  | O, _ :: l' => a :: l'
  | S i', b :: l' => b :: replace_nth i' a l'
  end.

(** The [catch] and [finally] blocks (lines 160-166) of the submission
    at position [i], which then is over. *)
Definition catch_finally (i : nat) (err : Thrown) (w : World) : World :=
  let errorMessage := message_or err (lit "An unknown error occurred.") in
  set_pending (remove_nth i (pending w))
    (upd_app (fun s => setIsLoading false (setError (Some errorMessage) s)) w).

(** Line 159 and the [finally] block. *)
Definition succeed_finally (i : nat) (resultUrl : jsstring) (w : World) : World :=
  set_pending (remove_nth i (pending w))
    (upd_app (fun s =>
                setIsLoading false
                  (setGeneratedImageUrl (Some resultUrl) s)) w).

(** The submission at position [i] resumes after [await fileToDataUrl]:
    lines 156-158 up to the call of [editImage]. *)
Definition resume_after_read (i : nat) (o : ReadOutcome) (w : World) : World :=
  match nth_error (pending w) i with
  | Some t =>
      match task_stage t with
      | ReadingFile =>
          match fileToDataUrl (task_file t) o with
          | Resolved dataUrl =>
              match parseDataUrl dataUrl with
              | inl p =>
                  set_pending
                    (replace_nth i
                       (mkTask (task_file t) (task_prompt t)
                          (CallingService (base64_of p) (mimeType_of p)))
                       (pending w)) w
              | inr err => catch_finally i err w
              end
          | Rejected err => catch_finally i err w
          end
      | CallingService _ _ => w
      end
  | None => w
  end.

(** The submission at position [i] resumes after [await editImage(...)]. *)
Definition resume_after_service (i : nat) (out : ServiceOutcome) (w : World)
  : World :=
  match nth_error (pending w) i with
  | Some t =>
      match task_stage t with
      | CallingService base64 mimeType =>
          match editImage base64 mimeType (task_prompt t) (fun _ => out) with
          | Resolved resultUrl => succeed_finally i resultUrl w
          | Rejected err => catch_finally i err w
          end
      | ReadingFile => w
      end
  | None => w
  end.

(** *** The rendered controls (lines 180-199)

    The file input and the text area are [disabled={isLoading}], the
    button is [disabled={isLoading || !imageFile || !prompt}]; a disabled
    control dispatches nothing. *)
Inductive Event :=
| ImageInputChange (file : option File)
| PromptInput (text : jsstring)
| GenerateClick
| FileReadSettles (i : nat) (o : ReadOutcome)
| ServiceSettles (i : nat) (out : ServiceOutcome)
| Unmount.

Definition submit_disabled (s : AppState) : bool :=
  isLoading s
  || match imageFile s with Some _ => false | None => true end
  || negb (truthy (prompt s)).

Definition handle (e : Event) (w : World) : World :=
  match e with
  | ImageInputChange file =>
      if isLoading (app w) then w else handleImageChange file w
  | PromptInput text =>
      if isLoading (app w) then w else upd_app (setPrompt text) w
  | GenerateClick =>
      if submit_disabled (app w) then w else handleSubmit w
  | FileReadSettles i o => resume_after_read i o w
  | ServiceSettles i out => resume_after_service i out w
  | Unmount => unmount w
  end.

(** One turn of the event loop: the handler, then React's commit.  An
    unmounted component neither receives events nor updates its state. *)
Definition dispatch (w : World) (e : Event) : World :=
  match effect w with
  | None => w
  | Some _ => commit (handle e w)
  end.

Definition run (w : World) (es : list Event) : World :=
  fold_left dispatch es w.

(** The world right after the first render and its effect. *)
Definition mounted : World :=
  {| app := initial_state; effect := Some None; next_url := O;
     blob_store := []; revoke_log := []; pending := [] |}.

(** A whole submission with nothing in between: the call, then the two
    awaited operations settling with the given outcomes. *)
Definition submit_and_settle (o : ReadOutcome) (out : ServiceOutcome)
    (w : World) : World :=
  let i := List.length (pending w) in
  resume_after_service i out (resume_after_read i o (handleSubmit w)).

(** Lines 156-158 as one expression: the value the [try] block of
    [handleSubmit] completes with. *)
Definition submission_outcome (file : File) (promptText : jsstring)
    (o : ReadOutcome) (out : ServiceOutcome) : Completion jsstring :=
  match fileToDataUrl file o with
  | Resolved dataUrl =>
      match parseDataUrl dataUrl with
      | inl p =>
          editImage (base64_of p) (mimeType_of p) promptText (fun _ => out)
      | inr err => Rejected err
      end
  | Rejected err => Rejected err
  end.

(** The slots after a submission that started from [w] and completed with
    [c], nothing else having happened. *)
Definition settled (c : Completion jsstring) (w : World) : World :=
  upd_app (fun s =>
    match c with
    | Resolved resultUrl =>
        mkApp (imageFile s) (imagePreviewUrl s) (prompt s)
              (Some resultUrl) false None
    | Rejected err =>
        mkApp (imageFile s) (imagePreviewUrl s) (prompt s)
              None false
              (Some (message_or err (lit "An unknown error occurred.")))
    end) w.

(** A submission is suspended exactly while [isLoading] is set, and then
    only one. *)
Definition one_or_none (w : World) : Prop :=
  (isLoading (app w) = true /\ exists t, pending w = [t]) \/
  (isLoading (app w) = false /\ pending w = []).

(** The controller's invariant along the events of the rendered page: the
    mounted effect has captured the current preview URL, and [one_or_none]. *)
Definition in_step (w : World) : Prop :=
  (effect w = None \/ effect w = Some (imagePreviewUrl (app w))) /\
  one_or_none w.

End Controller.
Import Controller.

(* ================================================================== *)
(** ** Vocabulary of the specification *)

Module Spec.

(** A string without line terminators: what a run of [.] can cover. *)
Definition single_line (s : jsstring) : Prop :=
  Forall (fun c => is_line_terminator c = false) s.

(** Section 4.1, as worded: the string "matches the pattern
    [data:<type>;base64,<payload>]", a type and a payload standing between
    the three markers. *)
Definition matches_pattern (s : jsstring) : Prop :=
  exists type payload,
    type <> [] /\ payload <> [] /\
    s = lit "data:" ++ type ++ lit ";base64," ++ payload.

(** The same pattern with what the regular expression's [.] adds: neither
    part spans a line terminator. *)
Definition data_url_shape (s : jsstring) : Prop :=
  exists type payload,
    type <> [] /\ payload <> [] /\
    single_line type /\ single_line payload /\
    s = lit "data:" ++ type ++ lit ";base64," ++ payload.

(** Section 7: a ServiceError is recognised by its fixed marker. *)
Definition service_error_marker : jsstring := lit "Failed to edit image: ".

Definition is_service_error (message : jsstring) : bool :=
  match strip_prefix service_error_marker message with
  | Some _ => true
  | None => false
  end.

(** What the base64 alphabet guarantees here: no line terminator and no
    semicolon (code unit 59). *)
Definition b64_alphabet (c : code_unit) : Prop :=
  is_line_terminator c = false /\ c <> 59.

(** Section 3: the four states of the controller.  The code keeps no
    such tag; the state is read off the slots the way the claims do:
    Loading while [isLoading] is set, otherwise Failed when an error
    message is set, Succeeded when a generated image is set, Idle when
    neither is. *)
Inductive InteractionState := Idle | Loading | Succeeded | Failed.

Definition interaction_state (s : AppState) : InteractionState :=
  if isLoading s then Loading
  else match error s, generatedImageUrl s with
       | Some _, _ => Failed
       | None, Some _ => Succeeded
       | None, None => Idle
       end.

(** A content part that carries inline image data. *)
Definition has_inline (p : Part) : Prop := inlineData p <> None.

End Spec.
Import Spec.

(* ================================================================== *)
(** ** Sample inputs *)

Module Samples.

Definition man_png : File :=
  mkFile ["M"%byte; "a"%byte; "n"%byte] (lit "image/png").

Definition cat_jpeg : File :=
  mkFile ["c"%byte; "a"%byte; "t"%byte; "!"%byte] (lit "image/jpeg").

(** The page after its first render and one image selection. *)
Definition ready : World := dispatch mounted (ImageInputChange (Some man_png)).

Definition text_only : GenerateContentResponse :=
  mkResponse (Some [mkCandidate (Some (mkContent (Some
    [ mkPart None (Some (lit "I cannot edit this image.")) ])))]).

Definition text_then_image : GenerateContentResponse :=
  mkResponse (Some [mkCandidate (Some (mkContent (Some
    [ mkPart None (Some (lit "Here you go"));
      mkPart (Some (mkInline (Some (lit "QUJD")) (Some (lit "image/webp"))))
             None;
      mkPart (Some (mkInline (Some (lit "REVG")) None)) None ])))]).

End Samples.
Import Samples.

(* ================================================================== *)
(** ** What the page renders, and what it keeps true *)

Module Page.

(** [{error && (...)}] (line 200): the error box is rendered when the slot
    holds a non-empty string. *)
Definition error_box_shown (s : AppState) : bool :=
  match error s with
  | Some message => truthy message
  | None => false
  end.

(** [generatedUrl ? <img .../> : <SparklesIcon .../>] (line 107). *)
Definition generated_image_shown (s : AppState) : bool :=
  match generatedImageUrl s with
  | Some url => truthy url
  | None => false
  end.

(** The messages the [catch] block of [handleSubmit] can store. *)
Definition submission_message (message : jsstring) : Prop :=
  message = lit "An unknown error occurred." \/
  message = lit "Invalid data URL format" \/
  message = lit "An unknown error occurred while editing the image." \/
  exists s, message = lit "Failed to edit image: " ++ s.

(** The result slots: empty while loading, never both set, and an error is
    always one of the submission messages. *)
Definition results_ok (w : World) : Prop :=
  (isLoading (app w) = true ->
   generatedImageUrl (app w) = None /\ error (app w) = None) /\
  (generatedImageUrl (app w) = None \/ error (app w) = None) /\
  (forall message, error (app w) = Some message -> submission_message message) /\
  (forall url, generatedImageUrl (app w) = Some url -> url <> []).

(** A suspended submission is for the image and the prompt on display, and
    once [editImage] has been called its arguments are the two parts of
    that image's data URL. *)
Definition task_current (w : World) (t : Task) : Prop :=
  imageFile (app w) = Some (task_file t) /\
  prompt (app w) = task_prompt t /\
  truthy (task_prompt t) = true /\
  match task_stage t with
  | ReadingFile => True
  | CallingService base64 mimeType =>
      parseDataUrl (readAsDataURL (task_file t))
      = inl {| base64_of := base64; mimeType_of := mimeType |}
  end.

Definition pending_current (w : World) : Prop :=
  forall t, In t (pending w) -> task_current w t.

(** Every superseded URL, twice. *)
Definition revoked_twice (n : nat) : list ObjectURL :=
  flat_map (fun u => [u; u]) (seq O n).

(** The blob URLs.  While the component is mounted the store holds exactly
    the URL on display, registered for the uploaded file, and that URL is
    the last one created; the log holds each earlier URL twice.  After the
    unmount the store is empty and the last URL is logged once more. *)
Definition blobs_ok (w : World) : Prop :=
  match effect w with
  | None =>
      blob_store w = [] /\
      revoke_log w
      = revoked_twice (pred (next_url w))
        ++ match next_url w with O => [] | S u => [u] end
  | Some dep =>
      dep = imagePreviewUrl (app w) /\
      revoke_log w = revoked_twice (pred (next_url w)) /\
      match imagePreviewUrl (app w), imageFile (app w) with
      | Some u, Some f => blob_store w = [(u, f)] /\ next_url w = S u
      | None, None => blob_store w = [] /\ next_url w = O
      | _, _ => False
      end
  end.

End Page.
Import Page.

(* ================================================================== *)
(** ** Checks of the embedding on concrete inputs *)

Example base64_Man : base64 ["M"%byte; "a"%byte; "n"%byte] = lit "TWFu".
Proof. reflexivity. Qed.

Example base64_Ma : base64 ["M"%byte; "a"%byte] = lit "TWE=".
Proof. reflexivity. Qed.

Example base64_M : base64 ["M"%byte] = lit "TQ==".
Proof. reflexivity. Qed.

Example parse_png :
  parseDataUrl (lit "data:image/png;base64,TWFu")
  = inl {| mimeType_of := lit "image/png"; base64_of := lit "TWFu" |}.
Proof. reflexivity. Qed.

(** The first group is greedy: it runs up to the last [;base64,]. *)
Example parse_greedy :
  parseDataUrl (lit "data:a;base64,b;base64,c")
  = inl {| mimeType_of := lit "a;base64,b"; base64_of := lit "c" |}.
Proof. reflexivity. Qed.

Example parse_empty_payload :
  parseDataUrl (lit "data:image/png;base64,")
  = inr (ErrorObject (lit "Invalid data URL format")).
Proof. reflexivity. Qed.

(* ================================================================== *)
(** ** The codec *)

Section CodecFacts.

Lemma strip_prefix_app (p s : jsstring) : strip_prefix p (p ++ s) = Some s.
Proof.
  induction p as [|a p IH]; simpl; [reflexivity|].
  now rewrite N.eqb_refl.
Qed.

Lemma strip_prefix_inv (p s r : jsstring) :
  strip_prefix p s = Some r -> s = p ++ r.
Proof.
  revert s; induction p as [|a p IH]; intros s H; simpl in *.
  - now inversion H.
  - destruct s as [|b s]; [discriminate|].
    destruct (a =? b) eqn:E; [|discriminate].
    apply N.eqb_eq in E; subst b. f_equal. now apply IH.
Qed.

Lemma single_line_dot (c : code_unit) :
  is_line_terminator c = false -> dot_matches c = true.
Proof. unfold dot_matches; now intros ->. Qed.

Lemma dot_single_line (c : code_unit) :
  dot_matches c = true -> is_line_terminator c = false.
Proof. unfold dot_matches; now destruct (is_line_terminator c). Qed.

Variable A : Type.
Variable k : jsstring -> jsstring -> option A.

(** Whatever the greedy group returns was returned by its continuation at
    some split of the input whose first part is a non-empty single line. *)
Lemma dot_plus_sound (s acc : jsstring) (r : A) :
  dot_plus s acc k = Some r ->
  exists t rest,
    t <> [] /\ single_line t /\ s = t ++ rest /\ k (acc ++ t) rest = Some r.
Proof.
  revert acc; induction s as [|c s IH]; intros acc H; simpl in H.
  - discriminate.
  - destruct (dot_matches c) eqn:Hc; [|discriminate].
    apply dot_single_line in Hc.
    destruct (dot_plus s (acc ++ [c]) k) as [r'|] eqn:Hrec.
    + inversion H; subst r'; clear H.
      destruct (IH _ Hrec) as (t & rest & _ & Hl & -> & Hk).
      exists (c :: t), rest. repeat split.
      * discriminate.
      * now constructor.
      * now rewrite <- app_assoc in Hk.
    + exists [c], s. repeat split; try assumption.
      * discriminate.
      * now repeat constructor.
Qed.

(** Backtracking is complete: if the continuation accepts some split, the
    group does not fail. *)
Lemma dot_plus_complete (t rest acc : jsstring) (r : A) :
  t <> [] -> single_line t -> k (acc ++ t) rest = Some r ->
  exists r', dot_plus (t ++ rest) acc k = Some r'.
Proof.
  revert acc; induction t as [|c t IH]; intros acc Hne Hl Hk; [easy|].
  inversion Hl as [|? ? Hc Hl']; subst. simpl.
  rewrite (single_line_dot _ Hc).
  destruct t as [|c' t].
  - simpl. destruct (dot_plus rest (acc ++ [c]) k) as [r'|]; eauto.
  - assert (Hk' : k ((acc ++ [c]) ++ c' :: t) rest = Some r)
      by now rewrite <- app_assoc.
    destruct (IH (acc ++ [c]) ltac:(discriminate) Hl' Hk') as (r' & ->).
    eauto.
Qed.

Lemma dot_plus_none (s acc : jsstring) :
  (forall t rest, t <> [] -> s = t ++ rest -> k (acc ++ t) rest = None) ->
  dot_plus s acc k = None.
Proof.
  intros H. destruct (dot_plus s acc k) as [r|] eqn:E; [|reflexivity].
  destruct (dot_plus_sound _ _ _ E) as (t & rest & Hne & _ & Hs & Hk).
  now rewrite (H t rest Hne Hs) in Hk.
Qed.

(** Greediness: when no longer split is accepted, the group captures [m]. *)
Lemma dot_plus_greedy (m rest acc : jsstring) (r : A) :
  m <> [] -> single_line m -> k (acc ++ m) rest = Some r ->
  (forall u v, u <> [] -> rest = u ++ v -> k (acc ++ m ++ u) v = None) ->
  dot_plus (m ++ rest) acc k = Some r.
Proof.
  revert acc; induction m as [|c m IH]; intros acc Hne Hl Hk Hlong; [easy|].
  inversion Hl as [|? ? Hc Hl']; subst. simpl.
  rewrite (single_line_dot _ Hc).
  destruct m as [|c' m].
  - simpl. rewrite dot_plus_none; [assumption|].
    intros t rest' Ht Hr. rewrite <- app_assoc. now apply Hlong.
  - rewrite (IH (acc ++ [c])); try easy.
    + now rewrite <- app_assoc.
    + intros u v Hu Hr. rewrite <- app_assoc. now apply Hlong.
Qed.

End CodecFacts.

(** The second group, followed by [$], captures exactly a non-empty
    single-line remainder. *)
Lemma last_group_inv (g1 s : jsstring) (r : jsstring * jsstring) :
  dot_plus s [] (fun g2 s4 => at_end (g1, g2) s4) = Some r ->
  s <> [] /\ single_line s /\ r = (g1, s).
Proof.
  intros H. apply dot_plus_sound in H.
  destruct H as (t & rest & Hne & Hl & -> & Hk). simpl in Hk.
  destruct rest; [|discriminate]. inversion Hk; subst.
  rewrite app_nil_r. auto.
Qed.

Lemma last_group_ok (g1 s : jsstring) :
  s <> [] -> single_line s ->
  dot_plus s [] (fun g2 s4 => at_end (g1, g2) s4) = Some (g1, s).
Proof.
  intros Hne Hl.
  destruct (dot_plus_complete _ (fun g2 s4 => at_end (g1, g2) s4)
              s [] [] (g1, s) Hne Hl eq_refl) as (r & Hr).
  rewrite app_nil_r in Hr. rewrite Hr.
  now destruct (last_group_inv _ _ _ Hr) as (_ & _ & ->).
Qed.

Lemma after_type_inv (g1 s2 : jsstring) (r : jsstring * jsstring) :
  after_type g1 s2 = Some r ->
  exists p, p <> [] /\ single_line p /\ s2 = lit ";base64," ++ p /\ r = (g1, p).
Proof.
  unfold after_type. intros H.
  destruct (strip_prefix (lit ";base64,") s2) as [s3|] eqn:E; [|discriminate].
  apply strip_prefix_inv in E. apply last_group_inv in H.
  destruct H as (Hne & Hl & ->). now exists s3.
Qed.

Lemma after_type_ok (g1 p : jsstring) :
  p <> [] -> single_line p ->
  after_type g1 (lit ";base64," ++ p) = Some (g1, p).
Proof.
  intros Hne Hl. unfold after_type.
  rewrite strip_prefix_app. now apply last_group_ok.
Qed.

Lemma match_data_url_inv (s g1 g2 : jsstring) :
  match_data_url s = Some (g1, g2) ->
  g1 <> [] /\ g2 <> [] /\ single_line g1 /\ single_line g2 /\
  s = lit "data:" ++ g1 ++ lit ";base64," ++ g2.
Proof.
  unfold match_data_url. intros H.
  destruct (strip_prefix (lit "data:") s) as [s1|] eqn:E; [|discriminate].
  apply strip_prefix_inv in E.
  apply dot_plus_sound in H. destruct H as (t & rest & Hne & Hl & -> & Hk).
  simpl in Hk. apply after_type_inv in Hk.
  destruct Hk as (p & Hp & Hlp & -> & Hr). inversion Hr; subst.
  auto.
Qed.

Lemma match_data_url_complete (type payload : jsstring) :
  type <> [] -> payload <> [] -> single_line type -> single_line payload ->
  exists r,
    match_data_url (lit "data:" ++ type ++ lit ";base64," ++ payload) = Some r.
Proof.
  intros Ht Hp Hlt Hlp. unfold match_data_url. rewrite strip_prefix_app.
  apply (dot_plus_complete _ after_type type _ [] (type, payload)); auto.
  now apply after_type_ok.
Qed.

(** *** Base64 output *)

Lemma b64_char_alphabet (i : N) : b64_alphabet (b64_char i).
Proof.
  unfold b64_alphabet, b64_char, is_line_terminator.
  destruct (i <? 26) eqn:E1; [apply N.ltb_lt in E1|apply N.ltb_ge in E1].
  { split; [|lia]. repeat rewrite orb_false_iff.
    repeat split; apply N.eqb_neq; lia. }
  destruct (i <? 52) eqn:E2; [apply N.ltb_lt in E2|apply N.ltb_ge in E2].
  { split; [|lia]. repeat rewrite orb_false_iff.
    repeat split; apply N.eqb_neq; lia. }
  destruct (i <? 62) eqn:E3; [apply N.ltb_lt in E3|apply N.ltb_ge in E3].
  { split; [|lia]. repeat rewrite orb_false_iff.
    repeat split; apply N.eqb_neq; lia. }
  destruct (i =? 62); split; try reflexivity; lia.
Qed.

Lemma pad_alphabet : b64_alphabet pad.
Proof. split; [reflexivity|discriminate]. Qed.

(** Induction three bytes at a time, the way [base64] recurses. *)
Lemma list_ind3 (T : Type) (P : list T -> Prop) :
  P [] -> (forall a, P [a]) -> (forall a b, P [a; b]) ->
  (forall a b c l, P l -> P (a :: b :: c :: l)) ->
  forall l, P l.
Proof.
  intros H0 H1 H2 H3.
  assert (H : forall l, P l /\ (forall a, P (a :: l))
                        /\ (forall a b, P (a :: b :: l))).
  { induction l as [|x l (IHa & IHb & IHc)]; repeat split; auto. }
  intros l. apply H.
Qed.

Lemma base64_alphabet (bs : list byte) : Forall b64_alphabet (base64 bs).
Proof.
  induction bs as [|a|a b|a b c l IH] using list_ind3; simpl;
    repeat (constructor; try apply b64_char_alphabet; try apply pad_alphabet).
  exact IH.
Qed.

Lemma base64_nonempty (bs : list byte) : bs <> [] -> base64 bs <> [].
Proof.
  destruct bs as [|a [|b [|c l]]]; simpl; intros H; try discriminate.
  now elim H.
Qed.

Lemma base64_single_line (bs : list byte) : single_line (base64 bs).
Proof.
  eapply Forall_impl; [|apply base64_alphabet]. now intros c [H _].
Qed.

(** After a payload free of [;], no [;base64,] starts to the right of the
    real one: a longer first group has nothing to continue with. *)
Lemma after_type_longer_fails (g1 payload u v : jsstring) :
  Forall (fun c => c <> 59) payload ->
  u <> [] -> lit ";base64," ++ payload = u ++ v ->
  after_type g1 v = None.
Proof.
  intros Hp Hu E.
  destruct u as [|x u]; [easy|].
  simpl in E. inversion E as [[Hx Htl]]; clear E.
  assert (Hv : Forall (fun c => c <> 59) v).
  { assert (Hall : Forall (fun c => c <> 59) (u ++ v)).
    { rewrite <- Htl.
      repeat (constructor; [discriminate|]). exact Hp. }
    apply Forall_app in Hall. tauto. }
  unfold after_type. destruct v as [|c v]; [reflexivity|].
  inversion Hv as [|? ? Hc _]; subst.
  change (lit ";base64,") with (59 :: lit "base64,"). cbn [strip_prefix].
  destruct (59 =? c) eqn:Ec; [|reflexivity].
  apply N.eqb_eq in Ec. congruence.
Qed.

Lemma match_data_url_exact (type payload : jsstring) :
  type <> [] -> single_line type ->
  payload <> [] -> single_line payload ->
  Forall (fun c => c <> 59) payload ->
  match_data_url (lit "data:" ++ type ++ lit ";base64," ++ payload)
  = Some (type, payload).
Proof.
  intros Ht Hlt Hp Hlp Hsemi. unfold match_data_url.
  rewrite strip_prefix_app.
  apply dot_plus_greedy; auto.
  - now apply after_type_ok.
  - intros u v Hu E. eapply after_type_longer_fails; eauto.
Qed.

(** C4 (codec round trip).  For every non-empty byte sequence [b] and every
    MIME type [m] (a non-empty string without line terminators, which every
    valid MIME type is), reading the file as a data URL and parsing the
    result gives back exactly [m] and the base64 encoding of [b]. *)
Theorem codec_round_trip (b : list byte) (m : jsstring) :
  b <> [] -> m <> [] -> single_line m ->
  fileToDataUrl (mkFile b m) Loaded = Resolved (readAsDataURL (mkFile b m)) /\
  parseDataUrl (readAsDataURL (mkFile b m))
  = inl {| mimeType_of := m; base64_of := base64 b |}.
Proof.
  intros Hb Hm Hl. split; [reflexivity|].
  unfold parseDataUrl, readAsDataURL; simpl file_type; simpl file_bytes.
  rewrite match_data_url_exact; auto.
  - now apply base64_nonempty.
  - apply base64_single_line.
  - eapply Forall_impl; [|apply base64_alphabet]. now intros c [_ H].
Qed.

Lemma codec_round_trip_witness :
  parseDataUrl (readAsDataURL
                  (mkFile ["M"%byte; "a"%byte; "n"%byte] (lit "image/png")))
  = inl {| mimeType_of := lit "image/png"; base64_of := lit "TWFu" |}.
Proof.
  apply (codec_round_trip ["M"%byte; "a"%byte; "n"%byte] (lit "image/png")).
  - discriminate.
  - discriminate.
  - repeat constructor.
Defined.

(** C5, as stated, fails: a string with the prefix, the semicolon, the comma
    and a non-empty type and payload matches the pattern of the
    specification, and still is rejected when its payload holds a line
    feed, which [.] does not match. *)
Lemma parseDataUrl_rejects_pattern_with_line_feed :
  let s := lit "data:image/png;base64,iVBOR" ++ [10] ++ lit "w0KGgo=" in
  matches_pattern s /\
  parseDataUrl s = inr (ErrorObject (lit "Invalid data URL format")).
Proof.
  split; [|reflexivity].
  exists (lit "image/png"), (lit "iVBOR" ++ [10] ++ lit "w0KGgo=").
  repeat split; discriminate.
Qed.

(** C5 (amended).  [parseDataUrl] is a total function of its argument.  It
    succeeds exactly on the strings [data:<type>;base64,<payload>] whose
    type and payload are non-empty and free of line terminators, and then
    returns parts that spell the input; on every other string it throws an
    [Error] with the message "Invalid data URL format".  In particular it
    fails on "not-a-data-url" and on "data:text/plain,hello". *)
Theorem parseDataUrl_fails_exactly_off_shape (s : jsstring) :
  (forall p, parseDataUrl s = inl p ->
     mimeType_of p <> [] /\ base64_of p <> [] /\
     single_line (mimeType_of p) /\ single_line (base64_of p) /\
     s = lit "data:" ++ mimeType_of p ++ lit ";base64," ++ base64_of p) /\
  ((exists p, parseDataUrl s = inl p) <-> data_url_shape s) /\
  (parseDataUrl s = inr (ErrorObject (lit "Invalid data URL format"))
   <-> ~ data_url_shape s) /\
  parseDataUrl (lit "not-a-data-url")
  = inr (ErrorObject (lit "Invalid data URL format")) /\
  parseDataUrl (lit "data:text/plain,hello")
  = inr (ErrorObject (lit "Invalid data URL format")).
Proof.
  assert (Hinv : forall p, parseDataUrl s = inl p ->
     mimeType_of p <> [] /\ base64_of p <> [] /\
     single_line (mimeType_of p) /\ single_line (base64_of p) /\
     s = lit "data:" ++ mimeType_of p ++ lit ";base64," ++ base64_of p).
  { intros p H. unfold parseDataUrl in H.
    destruct (match_data_url s) as [[g1 g2]|] eqn:E; [|discriminate].
    inversion H; subst p; simpl. now apply match_data_url_inv. }
  assert (Hok : (exists p, parseDataUrl s = inl p) <-> data_url_shape s).
  { split.
    - intros (p & H). destruct (Hinv p H) as (H1 & H2 & H3 & H4 & H5).
      now exists (mimeType_of p), (base64_of p).
    - intros (t & p & Ht & Hp & Hlt & Hlp & ->).
      destruct (match_data_url_complete t p Ht Hp Hlt Hlp) as ([g1 g2] & E).
      unfold parseDataUrl. rewrite E. eauto. }
  split; [exact Hinv|]. split; [exact Hok|].
  split; [|split; reflexivity]. split.
  - intros H Hs. apply Hok in Hs. destruct Hs as (p & Hp). congruence.
  - intros Hs. unfold parseDataUrl in *.
    destruct (match_data_url s) as [[g1 g2]|] eqn:E; [|reflexivity].
    exfalso. apply Hs, Hok. eauto.
Qed.

(* ================================================================== *)
(** ** The service client *)

Lemma scan_parts_first (before after : list Part) (part : Part)
    (d : InlineData) :
  Forall (fun q => inlineData q = None) before ->
  inlineData part = Some d ->
  scan_parts (before ++ part :: after) = Some (inline_data_url d).
Proof.
  intros Hb Hp. induction Hb as [|q before Hq _ IH]; simpl.
  - now rewrite Hp.
  - now rewrite Hq.
Qed.

Lemma scan_parts_none (ps : list Part) :
  Forall (fun q => inlineData q = None) ps -> scan_parts ps = None.
Proof.
  induction 1 as [|q ps Hq _ IH]; simpl; [reflexivity|]. now rewrite Hq.
Qed.

(** A list with an inline part splits at its first inline part. *)
Lemma first_inline_split (ps : list Part) :
  Exists has_inline ps ->
  exists before part d after,
    ps = before ++ part :: after /\
    Forall (fun q => inlineData q = None) before /\
    inlineData part = Some d.
Proof.
  induction ps as [|q ps IH]; intros H; [inversion H|].
  destruct (inlineData q) as [d|] eqn:Eq.
  - exists [], q, d, ps. auto.
  - destruct IH as (before & part & d & after & -> & Hb & Hp).
    + inversion H as [? ? Hq|]; subst; [|assumption].
      unfold has_inline in Hq. congruence.
    + exists (q :: before), part, d, after. auto.
Qed.

(** C6 (first-match policy).  When the parts of the response's first
    candidate hold at least one part with inline data, [editImage] resolves
    with the data URL of the first such part in list order: [data:], then
    that part's MIME type (or [image/png] when the part has none, or an
    empty one), then [;base64,], then that part's data (the text
    "undefined" when the part has none). *)
Theorem editImage_returns_first_inline_part
    (base64Data mimeType0 prompt0 : jsstring)
    (generateContent : GenerateContentRequest -> ServiceOutcome)
    (response : GenerateContentResponse)
    (c : Candidate) (rest : list Candidate) (ct : Content) (ps : list Part) :
  generateContent (edit_request base64Data mimeType0 prompt0)
  = Returned response ->
  candidates response = Some (c :: rest) ->
  content c = Some ct ->
  parts ct = Some ps ->
  Exists has_inline ps ->
  exists before part d after mime payload,
    ps = before ++ part :: after /\
    Forall (fun q => inlineData q = None) before /\
    inlineData part = Some d /\
    editImage base64Data mimeType0 prompt0 generateContent
    = Resolved (lit "data:" ++ mime ++ lit ";base64," ++ payload) /\
    (forall mt, mimeType d = Some mt -> mt <> [] -> mime = mt) /\
    (mimeType d = None -> mime = lit "image/png") /\
    (mimeType d = Some [] -> mime = lit "image/png") /\
    (forall x, data d = Some x -> payload = x) /\
    (data d = None -> payload = lit "undefined").
Proof.
  intros Hcall Hc Hct Hps Hex.
  assert (Hparts : response_parts response = ps).
  { unfold response_parts. now rewrite Hc, Hct, Hps. }
  destruct (first_inline_split _ Hex) as (before & part & d & after & E & Hb & Hp).
  exists before, part, d, after,
    (or_default (mimeType d) (lit "image/png")), (template (data d)).
  repeat split; auto.
  - unfold editImage, editImage_try. rewrite Hcall, Hparts, E.
    now rewrite (scan_parts_first before after part d Hb Hp).
  - intros mt -> Hne. destruct mt; [easy|reflexivity].
  - now intros ->.
  - now intros ->.
  - now intros x ->.
  - now intros ->.
Qed.

Lemma editImage_returns_first_inline_part_witness :
  Exists has_inline
    [ mkPart None (Some (lit "Here you go"));
      mkPart (Some (mkInline (Some (lit "QUJD")) (Some (lit "image/webp"))))
             None;
      mkPart (Some (mkInline (Some (lit "REVG")) None)) None ] /\
  editImage (lit "AAAA") (lit "image/jpeg") (lit "add a hat")
    (fun _ => Returned text_then_image)
  = Resolved (lit "data:image/webp;base64,QUJD").
Proof.
  assert (H : Exists has_inline
                [ mkPart None (Some (lit "Here you go"));
                  mkPart (Some (mkInline (Some (lit "QUJD"))
                                  (Some (lit "image/webp")))) None;
                  mkPart (Some (mkInline (Some (lit "REVG")) None)) None ]).
  { apply Exists_cons_tl, Exists_cons_hd. discriminate. }
  split; [exact H|].
  destruct (editImage_returns_first_inline_part
              (lit "AAAA") (lit "image/jpeg") (lit "add a hat")
              (fun _ => Returned text_then_image) text_then_image
              _ _ _ _ eq_refl eq_refl eq_refl eq_refl H)
    as (before & part & d & after & mime & payload
        & E & Hb & Hp & Hres & Hmime & _ & _ & Hdata & _).
  rewrite Hres.
  destruct before as [|q0 before].
  - simpl in E. injection E as E1 _. rewrite <- E1 in Hp. discriminate Hp.
  - simpl in E. injection E as _ E'.
    destruct before as [|q1 before].
    + simpl in E'. injection E' as E1 _. rewrite <- E1 in Hp.
      injection Hp as Hd. rewrite <- Hd in Hmime, Hdata.
      rewrite (Hmime (lit "image/webp") eq_refl ltac:(discriminate)).
      rewrite (Hdata (lit "QUJD") eq_refl). reflexivity.
    + simpl in E'. injection E' as E1 _.
      inversion Hb as [|? ? _ Hb']. inversion Hb' as [|? ? Hq1 _].
      rewrite <- E1 in Hq1. discriminate Hq1.
Defined.

Example editImage_text_then_image :
  editImage (lit "AAAA") (lit "image/jpeg") (lit "add a hat")
    (fun _ => Returned text_then_image)
  = Resolved (lit "data:image/webp;base64,QUJD").
Proof. reflexivity. Qed.

Example editImage_missing_mime_and_data :
  editImage (lit "AAAA") (lit "image/jpeg") (lit "add a hat")
    (fun _ => Returned (mkResponse (Some [mkCandidate (Some (mkContent (Some
       [ mkPart (Some (mkInline None (Some []))) None ])))])))
  = Resolved (lit "data:image/png;base64,undefined").
Proof. reflexivity. Qed.

(** C7, as stated, fails: the error raised for a response without image is
    raised inside the [try] block, so the [catch] block wraps it like any
    failure of the remote call.  Its message carries the ServiceError
    marker, and a remote call that throws with the same text is answered
    with the very same error. *)
Lemma no_image_error_is_a_service_error :
  let no_parts := mkResponse (Some [mkCandidate (Some (mkContent (Some [])))]) in
  let thrown :=
    ErrorObject (lit "No image data found in the Gemini API response.") in
  exists message,
    editImage (lit "AAAA") (lit "image/png") (lit "add a hat")
      (fun _ => Returned no_parts) = Rejected (ErrorObject message) /\
    is_service_error message = true /\
    editImage (lit "AAAA") (lit "image/png") (lit "add a hat")
      (fun _ => Threw thrown) = Rejected (ErrorObject message).
Proof.
  exists (lit "Failed to edit image: No image data found in the Gemini API response.").
  repeat split.
Qed.

(* ================================================================== *)
(** ** The controller *)

Section ListFacts.

Variable T : Type.

Lemma nth_error_snoc (l : list T) (t : T) :
  nth_error (l ++ [t]) (List.length l) = Some t.
Proof. induction l; simpl; auto. Qed.

Lemma remove_nth_snoc (l : list T) (t : T) :
  remove_nth (List.length l) (l ++ [t]) = l.
Proof. induction l; simpl; congruence. Qed.

Lemma replace_nth_snoc (l : list T) (t t' : T) :
  replace_nth (List.length l) t' (l ++ [t]) = l ++ [t'].
Proof. induction l; simpl; congruence. Qed.

End ListFacts.

(** A submission that passes the guard and is left alone until both
    awaited operations have settled ends in [settled]. *)
Lemma submit_and_settle_eq (w : World) (f : File) (o : ReadOutcome)
    (out : ServiceOutcome) :
  imageFile (app w) = Some f -> truthy (prompt (app w)) = true ->
  submit_and_settle o out w
  = settled (submission_outcome f (prompt (app w)) o out) w.
Proof.
  intros Hf Hp. unfold submit_and_settle, handleSubmit. rewrite Hf, Hp.
  unfold resume_after_read. cbn [pending set_pending].
  rewrite nth_error_snoc. cbn [task_stage task_file task_prompt].
  unfold submission_outcome.
  destruct (fileToDataUrl f o) as [dataUrl|err].
  - destruct (parseDataUrl dataUrl) as [p|err].
    + unfold resume_after_service. cbn [pending set_pending].
      rewrite replace_nth_snoc, nth_error_snoc.
      cbn [task_stage task_file task_prompt].
      destruct (editImage _ _ _ _) as [url|err];
        unfold succeed_finally, catch_finally, settled, set_pending, upd_app;
        cbn; rewrite remove_nth_snoc; destruct w as [[] e n b r l];
        reflexivity.
    + unfold resume_after_service, catch_finally. cbn [pending set_pending upd_app].
      rewrite remove_nth_snoc.
      replace (nth_error (pending w) (List.length (pending w))) with (@None Task)
        by (symmetry; apply nth_error_None; lia).
      unfold settled, set_pending, upd_app; destruct w as [[] e n b r l];
        reflexivity.
  - unfold resume_after_service, catch_finally. cbn [pending set_pending upd_app].
    rewrite remove_nth_snoc.
    replace (nth_error (pending w) (List.length (pending w))) with (@None Task)
      by (symmetry; apply nth_error_None; lia).
    unfold settled, set_pending, upd_app; destruct w as [[] e n b r l];
      reflexivity.
Qed.

(** Every failure of the [try] block of [handleSubmit] carries a message
    that is displayed: none is empty. *)
Lemma submission_failure_message (f : File) (p : jsstring) (o : ReadOutcome)
    (out : ServiceOutcome) (err : Thrown) :
  submission_outcome f p o out = Rejected err ->
  message_or err (lit "An unknown error occurred.") <> [].
Proof.
  unfold submission_outcome, fileToDataUrl, parseDataUrl.
  destruct o; [|intros H; inversion H; discriminate].
  destruct (match_data_url (readAsDataURL f)) as [[g1 g2]|];
    [|intros H; inversion H; discriminate].
  unfold editImage. destruct (editImage_try _ _ _ _) as [url|[m|]];
    intros H; inversion H; discriminate.
Qed.

Lemma submission_success_url (f : File) (p : jsstring) (o : ReadOutcome)
    (out : ServiceOutcome) (url : jsstring) :
  submission_outcome f p o out = Resolved url -> url <> [].
Proof.
  unfold submission_outcome, fileToDataUrl.
  destruct o; [|discriminate].
  destruct (parseDataUrl (readAsDataURL f)) as [pp|]; [|discriminate].
  unfold editImage, editImage_try.
  destruct out as [response|[m|]]; try discriminate.
  destruct (response_parts response) as [|q ps] eqn:E; [discriminate|].
  destruct (scan_parts (q :: ps)) as [u|] eqn:Es; [|discriminate].
  intros H; inversion H; subst u; clear H.
  revert Es. generalize (q :: ps). intros l. induction l as [|x l IH]; simpl.
  - discriminate.
  - destruct (inlineData x); [|exact IH].
    intros H; inversion H. discriminate.
Qed.

(** C2 (a submission leaves Loading, one way).  A call of [handleSubmit]
    that passes its guard sets [isLoading] and clears both result slots;
    whatever the file reader and the remote model answer, once the awaited
    operations have settled [isLoading] is reset, no submission is left
    suspended, and exactly one of the two result slots is set: either the
    generated image (and no error) or an error message (and no image). *)
Theorem submit_leaves_loading_one_way (w : World) (f : File)
    (o : ReadOutcome) (out : ServiceOutcome) :
  imageFile (app w) = Some f -> truthy (prompt (app w)) = true ->
  (isLoading (app (handleSubmit w)) = true /\
   generatedImageUrl (app (handleSubmit w)) = None /\
   error (app (handleSubmit w)) = None /\
   pending (handleSubmit w)
   = pending w ++ [mkTask f (prompt (app w)) ReadingFile]) /\
  (isLoading (app (submit_and_settle o out w)) = false /\
   pending (submit_and_settle o out w) = pending w /\
   ((exists url, url <> [] /\
       generatedImageUrl (app (submit_and_settle o out w)) = Some url /\
       error (app (submit_and_settle o out w)) = None) \/
    (exists message, message <> [] /\
       generatedImageUrl (app (submit_and_settle o out w)) = None /\
       error (app (submit_and_settle o out w)) = Some message))).
Proof.
  intros Hf Hp. split.
  - unfold handleSubmit. rewrite Hf, Hp. repeat split.
  - rewrite (submit_and_settle_eq w f o out Hf Hp).
    destruct (submission_outcome f (prompt (app w)) o out) as [url|err] eqn:E.
    + repeat split. left. exists url. repeat split.
      eapply submission_success_url; eauto.
    + repeat split. right. eexists. repeat split.
      eapply submission_failure_message; eauto.
Qed.

(** C7 (amended).  When no part of the response carries inline data,
    [editImage] rejects with an [Error] whose message is the ServiceError
    marker followed by "No image data found in the Gemini API response.",
    and a submission that reaches the service ends with that message in
    the error slot, no generated image, and [isLoading] reset. *)
Theorem no_image_response_fails_wrapped (response : GenerateContentResponse) :
  Forall (fun q => inlineData q = None) (response_parts response) ->
  (forall b m p generateContent,
     generateContent (edit_request b m p) = Returned response ->
     editImage b m p generateContent
     = Rejected (ErrorObject
         (lit "Failed to edit image: No image data found in the Gemini API response."))) /\
  (forall w f pp,
     imageFile (app w) = Some f -> truthy (prompt (app w)) = true ->
     parseDataUrl (readAsDataURL f) = inl pp ->
     isLoading (app (submit_and_settle Loaded (Returned response) w)) = false /\
     generatedImageUrl (app (submit_and_settle Loaded (Returned response) w))
     = None /\
     error (app (submit_and_settle Loaded (Returned response) w))
     = Some (lit "Failed to edit image: No image data found in the Gemini API response.")).
Proof.
  intros Hnone. split.
  - intros b m p g Hg. unfold editImage, editImage_try.
    now rewrite Hg, (scan_parts_none _ Hnone).
  - intros w f pp Hf Hp Hparse.
    rewrite (submit_and_settle_eq w f _ _ Hf Hp).
    unfold submission_outcome, fileToDataUrl. rewrite Hparse.
    unfold editImage, editImage_try. rewrite (scan_parts_none _ Hnone).
    repeat split.
Qed.

(** C8 (service failures keep their message).  When the remote call throws
    an [Error] with message [s], [editImage] rejects with an [Error] whose
    message is "Failed to edit image: " followed by [s], and a submission
    that reaches the service ends with exactly that text in the error slot;
    when the remote call throws a value that is no [Error], the message is
    the fixed "An unknown error occurred while editing the image.". *)
Theorem service_failure_message_is_kept (s : jsstring) :
  (forall b m p generateContent,
     generateContent (edit_request b m p) = Threw (ErrorObject s) ->
     editImage b m p generateContent
     = Rejected (ErrorObject (lit "Failed to edit image: " ++ s))) /\
  (forall b m p generateContent,
     generateContent (edit_request b m p) = Threw OtherValue ->
     editImage b m p generateContent
     = Rejected (ErrorObject
         (lit "An unknown error occurred while editing the image."))) /\
  (forall w f pp,
     imageFile (app w) = Some f -> truthy (prompt (app w)) = true ->
     parseDataUrl (readAsDataURL f) = inl pp ->
     (isLoading (app (submit_and_settle Loaded (Threw (ErrorObject s)) w))
      = false /\
      generatedImageUrl
        (app (submit_and_settle Loaded (Threw (ErrorObject s)) w)) = None /\
      error (app (submit_and_settle Loaded (Threw (ErrorObject s)) w))
      = Some (lit "Failed to edit image: " ++ s)) /\
     (isLoading (app (submit_and_settle Loaded (Threw OtherValue) w)) = false /\
      generatedImageUrl
        (app (submit_and_settle Loaded (Threw OtherValue) w)) = None /\
      error (app (submit_and_settle Loaded (Threw OtherValue) w))
      = Some (lit "An unknown error occurred while editing the image."))).
Proof.
  split; [|split].
  - intros b m p g Hg. unfold editImage, editImage_try. now rewrite Hg.
  - intros b m p g Hg. unfold editImage, editImage_try. now rewrite Hg.
  - intros w f pp Hf Hp Hparse.
    rewrite !(submit_and_settle_eq w f _ _ Hf Hp).
    unfold submission_outcome, fileToDataUrl. rewrite Hparse.
    repeat split.
Qed.

(** C9, as stated, fails: the code has one error slot.  On the freshly
    mounted page (no image) the state is Idle; [handleSubmit] stores the
    validation message in the slot a failed submission fills, which leaves
    exactly the slots of a Failed state: [isLoading] unset, no generated
    image, a non-empty error message. *)
Lemma validation_message_fills_the_failure_slot :
  imageFile (app mounted) = None /\
  interaction_state (app mounted) = Idle /\
  interaction_state (app (handleSubmit mounted)) = Failed /\
  isLoading (app (handleSubmit mounted)) = false /\
  generatedImageUrl (app (handleSubmit mounted)) = None /\
  error (app (handleSubmit mounted))
  = Some (lit "Please upload an image and provide a prompt.").
Proof. repeat split. Qed.

(** C9 (amended).  When no image is selected or the prompt is empty,
    [handleSubmit] starts nothing and only stores the validation message
    in the error slot, the one a failed submission fills (whatever that
    slot held before is overwritten): [isLoading], the generated image, the
    uploaded image, its preview and the prompt keep their values, no
    submission is suspended and nothing is revoked.  It never enters
    Loading. *)
Theorem submit_without_image_or_prompt (w : World) :
  imageFile (app w) = None \/ prompt (app w) = [] ->
  handleSubmit w = upd_app (setError (Some validation_message)) w /\
  error (app (handleSubmit w))
  = Some (lit "Please upload an image and provide a prompt.") /\
  isLoading (app (handleSubmit w)) = isLoading (app w) /\
  generatedImageUrl (app (handleSubmit w)) = generatedImageUrl (app w) /\
  imageFile (app (handleSubmit w)) = imageFile (app w) /\
  imagePreviewUrl (app (handleSubmit w)) = imagePreviewUrl (app w) /\
  prompt (app (handleSubmit w)) = prompt (app w) /\
  pending (handleSubmit w) = pending w /\
  revoke_log (handleSubmit w) = revoke_log w.
Proof.
  intros H.
  assert (E : handleSubmit w = upd_app (setError (Some validation_message)) w).
  { unfold handleSubmit. destruct H as [H|H]; rewrite H; [reflexivity|].
    now destruct (imageFile (app w)). }
  rewrite E. repeat split.
Qed.

Lemma submit_leaves_loading_one_way_witness :
  (imageFile (app ready) = Some man_png /\
   truthy (prompt (app ready)) = true) /\
  isLoading (app (handleSubmit ready)) = true /\
  isLoading
    (app (submit_and_settle Loaded (Returned text_then_image) ready)) = false.
Proof.
  split; [split; reflexivity|].
  pose proof (submit_leaves_loading_one_way ready man_png Loaded
                (Returned text_then_image) eq_refl eq_refl) as H.
  split; [apply H|apply H].
Defined.

Lemma no_image_response_fails_wrapped_witness :
  Forall (fun q => inlineData q = None) (response_parts text_only) /\
  editImage (lit "TWFu") (lit "image/png") (lit "add a hat")
    (fun _ => Returned text_only)
  = Rejected (ErrorObject
      (lit "Failed to edit image: No image data found in the Gemini API response.")) /\
  error (app (submit_and_settle Loaded (Returned text_only) ready))
  = Some (lit "Failed to edit image: No image data found in the Gemini API response.").
Proof.
  assert (H : Forall (fun q => inlineData q = None) (response_parts text_only))
    by (repeat constructor).
  split; [exact H|].
  destruct (no_image_response_fails_wrapped text_only H) as [H1 H2].
  split.
  - apply H1. reflexivity.
  - apply (H2 ready man_png
             {| mimeType_of := lit "image/png"; base64_of := lit "TWFu" |});
      reflexivity.
Defined.

Lemma service_failure_message_is_kept_witness :
  editImage (lit "TWFu") (lit "image/png") (lit "add a hat")
    (fun _ => Threw (ErrorObject (lit "quota exceeded")))
  = Rejected (ErrorObject (lit "Failed to edit image: quota exceeded")) /\
  error (app (submit_and_settle Loaded
                (Threw (ErrorObject (lit "quota exceeded"))) ready))
  = Some (lit "Failed to edit image: quota exceeded").
Proof.
  destruct (service_failure_message_is_kept (lit "quota exceeded"))
    as (H1 & _ & H3).
  split.
  - apply H1. reflexivity.
  - apply (H3 ready man_png
             {| mimeType_of := lit "image/png"; base64_of := lit "TWFu" |});
      reflexivity.
Defined.

Lemma submit_without_image_or_prompt_witness :
  (imageFile (app mounted) = None \/ prompt (app mounted) = []) /\
  error (app (handleSubmit mounted))
  = Some (lit "Please upload an image and provide a prompt.") /\
  isLoading (app (handleSubmit mounted)) = false /\
  pending (handleSubmit mounted) = [].
Proof.
  assert (H : imageFile (app mounted) = None \/ prompt (app mounted) = [])
    by (left; reflexivity).
  split; [exact H|].
  pose proof (submit_without_image_or_prompt mounted H)
    as (_ & He & Hl & _ & _ & _ & _ & Hp & _).
  auto.
Defined.

(** *** The events of the rendered page *)

Lemma option_url_eqb_refl (a : option ObjectURL) : option_url_eqb a a = true.
Proof. destruct a; simpl; [apply Nat.eqb_refl|reflexivity]. Qed.

Lemma revoke_if_set_app (u : option ObjectURL) (w : World) :
  app (revoke_if_set u w) = app w /\ pending (revoke_if_set u w) = pending w.
Proof. destruct u; split; reflexivity. Qed.

Lemma commit_frame (w : World) :
  app (commit w) = app w /\ pending (commit w) = pending w /\
  (effect (commit w) = None \/
   effect (commit w) = Some (imagePreviewUrl (app w))).
Proof.
  unfold commit. destruct (effect w) as [dep|] eqn:E; [|auto].
  destruct (option_url_eqb dep (imagePreviewUrl (app w))) eqn:Eq.
  - repeat split. right. rewrite E. f_equal.
    destruct dep as [x|], (imagePreviewUrl (app w)) as [y|];
      simpl in Eq; try discriminate; [|reflexivity].
    apply Nat.eqb_eq in Eq. now subst.
  - destruct dep; simpl; auto.
Qed.

Lemma commit_in_step (w : World) : in_step w -> commit w = w.
Proof.
  intros [[H|H] _]; unfold commit; rewrite H; [reflexivity|].
  now rewrite option_url_eqb_refl.
Qed.

(** While [isLoading] is set the three controls are disabled. *)
Lemma loading_disables_controls (w : World) (file : option File)
    (text : jsstring) :
  isLoading (app w) = true ->
  handle (ImageInputChange file) w = w /\
  handle (PromptInput text) w = w /\
  handle GenerateClick w = w.
Proof.
  intros H. unfold handle, submit_disabled. rewrite H. auto.
Qed.

Lemma handle_one_or_none (e : Event) (w : World) :
  one_or_none w -> one_or_none (handle e w).
Proof.
  intros H. destruct e as [file|text| |i o|i out|]; simpl.
  - destruct (isLoading (app w)) eqn:L; [assumption|].
    destruct file as [f|]; [|assumption].
    destruct H as [[H _]|[_ H]]; [congruence|].
    right. unfold handleImageChange. simpl.
    destruct (imagePreviewUrl (app w)); simpl; auto.
  - destruct (isLoading (app w)) eqn:L; [assumption|].
    destruct H as [[H _]|[_ H]]; [congruence|]. right. simpl. auto.
  - destruct (submit_disabled (app w)) eqn:D; [assumption|].
    unfold submit_disabled in D.
    apply orb_false_iff in D. destruct D as [D Hp].
    apply orb_false_iff in D. destruct D as [L Hf].
    apply negb_false_iff in Hp.
    destruct H as [[H _]|[_ H]]; [congruence|].
    unfold handleSubmit. destruct (imageFile (app w)) as [f|]; [|discriminate].
    rewrite Hp. left. simpl. rewrite H. split; [reflexivity|]. simpl. eauto.
  - unfold resume_after_read.
    destruct H as [[L [t Ht]]|[L Ht]]; rewrite Ht.
    + destruct i as [|i]; simpl; [|destruct i; left; eauto].
      destruct (task_stage t); [|left; eauto].
      destruct (fileToDataUrl (task_file t) o) as [dataUrl|err].
      * destruct (parseDataUrl dataUrl) as [p|err].
        -- left. simpl. eauto.
        -- right. unfold catch_finally. simpl. rewrite Ht. auto.
      * right. unfold catch_finally. simpl. rewrite Ht. auto.
    + destruct i; simpl; right; auto.
  - unfold resume_after_service.
    destruct H as [[L [t Ht]]|[L Ht]]; rewrite Ht.
    + destruct i as [|i]; simpl; [|destruct i; left; eauto].
      destruct (task_stage t); [left; eauto|].
      destruct (editImage _ _ _ _) as [url|err]; right;
        unfold succeed_finally, catch_finally; simpl; rewrite Ht; auto.
    + destruct i; simpl; right; auto.
  - unfold unmount. destruct (effect w) as [dep|]; [|assumption].
    destruct dep; exact H.
Qed.

Lemma dispatch_in_step (w : World) (e : Event) :
  in_step w -> in_step (dispatch w e).
Proof.
  intros H. unfold dispatch. destruct (effect w) eqn:E; [|assumption].
  destruct (commit_frame (handle e w)) as (Ha & Hp & He).
  split.
  - now rewrite Ha.
  - destruct H as [_ H]. apply (handle_one_or_none e) in H.
    unfold one_or_none in *. now rewrite Ha, Hp.
Qed.

Lemma run_in_step (es : list Event) (w : World) :
  in_step w -> in_step (run w es).
Proof.
  revert w. induction es as [|e es IH]; intros w H; simpl; [assumption|].
  apply IH. now apply dispatch_in_step.
Qed.

Lemma mounted_in_step : in_step mounted.
Proof. split; [right; reflexivity|right; split; reflexivity]. Qed.

(** C1, as stated, fails: [handleSubmit] has no guard on [isLoading].
    Called a second time while the first submission is suspended, it
    starts a second one. *)
Lemma handleSubmit_while_loading_starts_a_second_submission :
  isLoading (app (handleSubmit ready)) = true /\
  List.length (pending (handleSubmit ready)) = 1%nat /\
  List.length (pending (handleSubmit (handleSubmit ready))) = 2%nat /\
  handleSubmit (handleSubmit ready) <> handleSubmit ready.
Proof.
  repeat split.
  intros H. apply (f_equal (fun w => List.length (pending w))) in H.
  discriminate H.
Qed.

(** C1 (amended).  The Generate button is disabled while [isLoading] is
    set, so along every sequence of events of the rendered page (input
    changes, clicks, settling reads and service calls, unmounting) at most
    one submission is suspended at any time, and a click on Generate in a
    state with [isLoading] set changes nothing. *)
Theorem at_most_one_submission_in_flight (es : list Event) :
  (List.length (pending (run mounted es)) <= 1)%nat /\
  (isLoading (app (run mounted es)) = true ->
   handle GenerateClick (run mounted es) = run mounted es /\
   dispatch (run mounted es) GenerateClick = run mounted es).
Proof.
  pose proof (run_in_step es mounted mounted_in_step) as Hinv.
  split.
  - destruct Hinv as [_ [[_ [t Ht]]|[_ Ht]]]; rewrite Ht; simpl; lia.
  - intros L.
    destruct (loading_disables_controls (run mounted es) None [] L)
      as (_ & _ & Hc).
    split; [exact Hc|].
    unfold dispatch. destruct (effect (run mounted es)); [|reflexivity].
    rewrite Hc. now apply commit_in_step.
Qed.

Lemma at_most_one_submission_in_flight_witness :
  isLoading (app (run mounted [ImageInputChange (Some man_png); GenerateClick]))
  = true /\
  dispatch (run mounted [ImageInputChange (Some man_png); GenerateClick])
           GenerateClick
  = run mounted [ImageInputChange (Some man_png); GenerateClick].
Proof.
  split; [reflexivity|].
  apply (at_most_one_submission_in_flight
           [ImageInputChange (Some man_png); GenerateClick]).
  reflexivity.
Defined.

(** C3 (evaluation of the code).  After two image selections in a row the
    preview shows the second file, but the first preview URL has been
    revoked twice: once by [handleImageChange] (line 138) and once more by
    the cleanup of the effect (line 130) that React runs because
    [imagePreviewUrl] changed.  Unmounting then revokes the second URL
    once. *)
Theorem superseded_preview_url_is_revoked_twice (f1 f2 : File) :
  imagePreviewUrl (app (run mounted [ImageInputChange (Some f1)])) = Some O /\
  revoke_log (run mounted [ImageInputChange (Some f1)]) = [] /\
  preview (run mounted [ImageInputChange (Some f1);
                        ImageInputChange (Some f2)]) = Some f2 /\
  revoke_log (run mounted [ImageInputChange (Some f1);
                           ImageInputChange (Some f2)]) = [O; O] /\
  count_occ Nat.eq_dec
    (revoke_log (run mounted [ImageInputChange (Some f1);
                              ImageInputChange (Some f2)])) O = 2%nat /\
  revoke_log (run mounted [ImageInputChange (Some f1);
                           ImageInputChange (Some f2); Unmount])
  = [O; O; 1%nat].
Proof. repeat split. Qed.

(** C10 (no file, no change).  [handleImageChange] on a change event that
    carries no file returns the world as it was: the uploaded image, the
    preview URL, the generated image, the error message, the blob store
    and the log of revocations are untouched; and along the events of the
    rendered page such an event changes nothing either. *)
Theorem image_change_without_file_is_noop :
  (forall w, handleImageChange None w = w) /\
  (forall es, dispatch (run mounted es) (ImageInputChange None)
              = run mounted es).
Proof.
  split; [reflexivity|].
  intros es. pose proof (run_in_step es mounted mounted_in_step) as Hinv.
  unfold dispatch. destruct (effect (run mounted es)); [|reflexivity].
  simpl. destruct (isLoading (app (run mounted es)));
    now apply commit_in_step.
Qed.

(** *** Settling along the events of the page *)

Lemma revoke_if_set_effect (u : option ObjectURL) (w : World) :
  effect (revoke_if_set u w) = effect w.
Proof. now destruct u. Qed.

Lemma handle_keeps_effect (e : Event) (w : World) :
  e <> Unmount -> effect (handle e w) = effect w.
Proof.
  intros He. destruct e as [file|text| |i o|i out|]; simpl; try easy.
  - destruct (isLoading (app w)); [reflexivity|].
    destruct file; [|reflexivity]. simpl. apply revoke_if_set_effect.
  - now destruct (isLoading (app w)).
  - destruct (submit_disabled (app w)); [reflexivity|].
    unfold handleSubmit. destruct (imageFile (app w)); [|reflexivity].
    now destruct (truthy (prompt (app w))).
  - unfold resume_after_read. destruct (nth_error (pending w) i); [|reflexivity].
    destruct (task_stage t); [|reflexivity].
    destruct (fileToDataUrl (task_file t) o); [|reflexivity].
    now destruct (parseDataUrl a).
  - unfold resume_after_service.
    destruct (nth_error (pending w) i); [|reflexivity].
    destruct (task_stage t); [reflexivity|].
    now destruct (editImage _ _ _ _).
Qed.

Lemma settle_keeps_preview (e : Event) (w : World) :
  (exists i o, e = FileReadSettles i o) \/ (exists i out, e = ServiceSettles i out) ->
  imagePreviewUrl (app (handle e w)) = imagePreviewUrl (app w).
Proof.
  intros [(i & o & ->)|(i & out & ->)]; simpl.
  - unfold resume_after_read. destruct (nth_error (pending w) i); [|reflexivity].
    destruct (task_stage t); [|reflexivity].
    destruct (fileToDataUrl (task_file t) o); [|reflexivity].
    now destruct (parseDataUrl a).
  - unfold resume_after_service.
    destruct (nth_error (pending w) i); [|reflexivity].
    destruct (task_stage t); [reflexivity|].
    now destruct (editImage _ _ _ _).
Qed.

(** A settling operation never triggers the effect: the turn of the event
    loop is the continuation alone. *)
Lemma dispatch_settle (e : Event) (w : World) :
  (exists i o, e = FileReadSettles i o) \/ (exists i out, e = ServiceSettles i out) ->
  in_step w -> effect w <> None ->
  dispatch w e = handle e w.
Proof.
  intros He [Hs Hone] Hm. unfold dispatch.
  destruct (effect w) as [dep|] eqn:E; [|easy].
  apply commit_in_step. split.
  - right. rewrite handle_keeps_effect, (settle_keeps_preview e w He).
    + rewrite E. destruct Hs as [Hs|Hs]; [discriminate|exact Hs].
    + destruct He as [(i & o & ->)|(i & out & ->)]; discriminate.
  - now apply handle_one_or_none.
Qed.

Lemma settle_both (w : World) (o : ReadOutcome) (out : ServiceOutcome) :
  one_or_none w ->
  isLoading (app (resume_after_service O out (resume_after_read O o w)))
  = false /\
  pending (resume_after_service O out (resume_after_read O o w)) = [].
Proof.
  intros [[L [t Ht]]|[L Ht]].
  - unfold resume_after_read. rewrite Ht. cbn [nth_error].
    destruct (task_stage t) eqn:St.
    + destruct (fileToDataUrl (task_file t) o) as [dataUrl|err].
      * destruct (parseDataUrl dataUrl) as [p|err].
        -- unfold resume_after_service. cbn.
           destruct (editImage _ _ _ _); cbn; auto.
        -- unfold resume_after_service, catch_finally. rewrite Ht. cbn. auto.
      * unfold resume_after_service, catch_finally. rewrite Ht. cbn. auto.
    + unfold resume_after_service. rewrite Ht. cbn [nth_error]. rewrite St.
      destruct (editImage _ _ _ _);
        unfold succeed_finally, catch_finally; rewrite Ht; cbn; auto.
  - unfold resume_after_read. rewrite Ht. cbn [nth_error].
    unfold resume_after_service. rewrite Ht. cbn [nth_error]. auto.
Qed.

(** On the mounted page nothing stays in Loading: whatever happened before,
    once the pending read and the pending service call have settled,
    [isLoading] is reset and no submission is suspended. *)
Lemma settling_leaves_loading (es : list Event) (o : ReadOutcome)
    (out : ServiceOutcome) :
  effect (run mounted es) <> None ->
  isLoading
    (app (run (run mounted es) [FileReadSettles O o; ServiceSettles O out]))
  = false /\
  pending (run (run mounted es) [FileReadSettles O o; ServiceSettles O out])
  = [].
Proof.
  intros Hm. pose proof (run_in_step es mounted mounted_in_step) as Hinv.
  set (w := run mounted es) in *. cbn [run fold_left].
  assert (H1 : dispatch w (FileReadSettles O o) = resume_after_read O o w).
  { apply (dispatch_settle (FileReadSettles O o)); eauto. }
  rewrite H1.
  assert (H2 : dispatch (resume_after_read O o w) (ServiceSettles O out)
               = resume_after_service O out (resume_after_read O o w)).
  { apply (dispatch_settle (ServiceSettles O out)); eauto.
    - rewrite <- H1. now apply dispatch_in_step.
    - change (resume_after_read O o w) with (handle (FileReadSettles O o) w).
      now rewrite handle_keeps_effect. }
  rewrite H2. apply settle_both. apply Hinv.
Qed.

(* ================================================================== *)
(** ** Further properties of the codec *)

(** The greedy group returns what its continuation gave at the longest
    split the continuation accepts. *)
Lemma dot_plus_longest (A : Type) (k : jsstring -> jsstring -> option A)
    (s acc : jsstring) (r : A) :
  dot_plus s acc k = Some r ->
  exists t rest,
    t <> [] /\ single_line t /\ s = t ++ rest /\ k (acc ++ t) rest = Some r /\
    forall t' rest',
      s = t' ++ rest' -> (List.length t < List.length t')%nat ->
      single_line t' -> k (acc ++ t') rest' = None.
Proof.
  revert acc; induction s as [|c s IH]; intros acc H; simpl in H.
  - discriminate.
  - destruct (dot_matches c) eqn:Hc; [|discriminate].
    apply dot_single_line in Hc.
    destruct (dot_plus s (acc ++ [c]) k) as [r'|] eqn:Hrec.
    + inversion H; subst r'; clear H.
      destruct (IH _ Hrec) as (t & rest & _ & Hl & -> & Hk & Hmax).
      exists (c :: t), rest. repeat split.
      * discriminate.
      * now constructor.
      * now rewrite <- app_assoc in Hk.
      * intros t' rest' E Hlen Hl'.
        destruct t' as [|c' t']; [simpl in Hlen; lia|].
        simpl in E. inversion E; subst c'. inversion Hl'; subst.
        replace (acc ++ c :: t') with ((acc ++ [c]) ++ t')
          by now rewrite <- app_assoc.
        apply Hmax; auto. simpl in Hlen. lia.
    + exists [c], s. repeat split; try assumption.
      * discriminate.
      * now repeat constructor.
      * intros t' rest' E Hlen Hl'.
        destruct t' as [|c' t']; [simpl in Hlen; lia|].
        simpl in E. inversion E; subst c'. inversion Hl'; subst.
        destruct t' as [|c2 t']; [simpl in Hlen; lia|].
        destruct (k (acc ++ c :: c2 :: t') rest') as [r'|] eqn:Hk';
          [|reflexivity].
        exfalso.
        assert (Hk2 : k ((acc ++ [c]) ++ c2 :: t') rest' = Some r')
          by now rewrite <- app_assoc.
        destruct (dot_plus_complete _ k (c2 :: t') rest' (acc ++ [c]) r'
                    ltac:(discriminate) ltac:(assumption) Hk2) as (r2 & Hr2).
        congruence.
Qed.

(** X1 (the type runs to the last separator).  When [parseDataUrl]
    succeeds, its [mimeType] is the longest possible one: whatever other way
    the input splits into [data:], a type, [;base64,] and a payload (both
    non-empty, on a single line), that type is no longer than the one
    returned.  So the returned payload never holds a further [;base64,]
    followed by more text. *)
Theorem parseDataUrl_type_is_longest (s : jsstring) (p : ParsedDataUrl)
    (type payload : jsstring) :
  parseDataUrl s = inl p ->
  type <> [] -> payload <> [] -> single_line type -> single_line payload ->
  s = lit "data:" ++ type ++ lit ";base64," ++ payload ->
  (List.length type <= List.length (mimeType_of p))%nat.
Proof.
  intros Hp Ht Hq Hlt Hlq Es. unfold parseDataUrl in Hp.
  destruct (match_data_url s) as [[g1 g2]|] eqn:E; [|discriminate].
  inversion Hp; subst p; clear Hp. simpl.
  unfold match_data_url in E. rewrite Es, strip_prefix_app in E.
  apply dot_plus_longest in E.
  destruct E as (t0 & rest & _ & _ & Esplit & Hk & Hmax). simpl in Hk.
  apply after_type_inv in Hk. destruct Hk as (q0 & _ & _ & _ & Hr).
  inversion Hr; subst g1 g2; clear Hr.
  destruct (Nat.le_gt_cases (List.length type) (List.length t0)) as [H|H];
    [exact H|].
  exfalso.
  pose proof (Hmax type (lit ";base64," ++ payload) eq_refl H Hlt) as Hnone.
  change ([] ++ type) with type in Hnone.
  now rewrite (after_type_ok type payload Hq Hlq) in Hnone.
Qed.

Lemma parseDataUrl_type_is_longest_witness :
  (List.length (lit "a") <= List.length (lit "a;base64,b"))%nat.
Proof.
  apply (parseDataUrl_type_is_longest
           (lit "data:a;base64,b;base64,c")
           {| mimeType_of := lit "a;base64,b"; base64_of := lit "c" |}
           (lit "a") (lit "b;base64,c")).
  - reflexivity.
  - discriminate.
  - discriminate.
  - repeat constructor.
  - repeat constructor.
  - reflexivity.
Defined.

(* ================================================================== *)
(** ** Further properties of the service client *)

Lemma or_default_nonempty (a : option jsstring) :
  or_default a (lit "image/png") <> [].
Proof.
  destruct a as [[|c m]|]; simpl; discriminate.
Qed.

(** X2 (the result is a data URL the codec accepts).  When the first
    inline part of the response carries data that is non-empty, on a single
    line and free of semicolons, and its MIME type (if any) is on a single
    line, the URL [editImage] resolves with parses back, with
    [parseDataUrl], into exactly the MIME type used (the part's, or
    [image/png]) and the part's data. *)
Theorem editImage_result_parses_back
    (base64Data mimeType0 prompt0 : jsstring)
    (generateContent : GenerateContentRequest -> ServiceOutcome)
    (response : GenerateContentResponse)
    (before after : list Part) (part : Part) (d : InlineData)
    (payload : jsstring) :
  generateContent (edit_request base64Data mimeType0 prompt0)
  = Returned response ->
  response_parts response = before ++ part :: after ->
  Forall (fun q => inlineData q = None) before ->
  inlineData part = Some d ->
  data d = Some payload -> payload <> [] -> single_line payload ->
  Forall (fun c => c <> 59) payload ->
  single_line (or_default (mimeType d) (lit "image/png")) ->
  exists url,
    editImage base64Data mimeType0 prompt0 generateContent = Resolved url /\
    parseDataUrl url
    = inl {| mimeType_of := or_default (mimeType d) (lit "image/png");
             base64_of := payload |}.
Proof.
  intros Hcall E Hb Hp Hd Hne Hl Hsemi Hm.
  exists (inline_data_url d). split.
  - unfold editImage, editImage_try. rewrite Hcall, E.
    now rewrite (scan_parts_first before after part d Hb Hp).
  - unfold inline_data_url, parseDataUrl. rewrite Hd. simpl template.
    rewrite match_data_url_exact; auto. apply or_default_nonempty.
Qed.

Lemma editImage_result_parses_back_witness :
  exists url,
    editImage (lit "AAAA") (lit "image/jpeg") (lit "add a hat")
      (fun _ => Returned text_then_image) = Resolved url /\
    parseDataUrl url
    = inl {| mimeType_of := lit "image/webp"; base64_of := lit "QUJD" |}.
Proof.
  apply (editImage_result_parses_back
           (lit "AAAA") (lit "image/jpeg") (lit "add a hat")
           (fun _ => Returned text_then_image) text_then_image
           [mkPart None (Some (lit "Here you go"))]
           [mkPart (Some (mkInline (Some (lit "REVG")) None)) None]
           (mkPart (Some (mkInline (Some (lit "QUJD"))
                            (Some (lit "image/webp")))) None)
           (mkInline (Some (lit "QUJD")) (Some (lit "image/webp")))
           (lit "QUJD")); try reflexivity.
  - repeat constructor.
  - discriminate.
  - repeat constructor.
  - repeat (constructor; [discriminate|]). constructor.
  - repeat constructor.
Defined.

(** X3 (only the first candidate counts).  [editImage] looks at the parts
    of the first candidate only: the candidates after it never change the
    result, and a response without candidates, or whose first candidate
    has no content or no parts, is answered like an empty part list, with
    the wrapped "No image data found" error. *)
Theorem editImage_reads_first_candidate_only
    (base64Data mimeType0 prompt0 : jsstring) :
  (forall c rest rest',
     editImage base64Data mimeType0 prompt0
       (fun _ => Returned (mkResponse (Some (c :: rest))))
     = editImage base64Data mimeType0 prompt0
         (fun _ => Returned (mkResponse (Some (c :: rest'))))) /\
  (forall response,
     candidates response = None \/
     candidates response = Some [] \/
     (exists c rest,
        candidates response = Some (c :: rest) /\
        (content c = None \/
         exists ct, content c = Some ct /\
                    (parts ct = None \/ parts ct = Some []))) ->
     editImage base64Data mimeType0 prompt0 (fun _ => Returned response)
     = Rejected (ErrorObject
         (lit "Failed to edit image: No image data found in the Gemini API response."))).
Proof.
  split.
  - reflexivity.
  - intros response H.
    assert (E : response_parts response = []).
    { unfold response_parts.
      destruct H as [->|[->|(c & rest & -> & [->|(ct & -> & [->| ->])])]];
        reflexivity. }
    unfold editImage, editImage_try. now rewrite E.
Qed.

Lemma editImage_reads_first_candidate_only_witness :
  editImage (lit "AAAA") (lit "image/png") (lit "add a hat")
    (fun _ => Returned
       (mkResponse (Some
          [ mkCandidate None;
            mkCandidate (Some (mkContent (Some
              [mkPart (Some (mkInline (Some (lit "QUJD")) None)) None]))) ])))
  = Rejected (ErrorObject
      (lit "Failed to edit image: No image data found in the Gemini API response.")).
Proof.
  apply (editImage_reads_first_candidate_only
           (lit "AAAA") (lit "image/png") (lit "add a hat")).
  right; right. eexists _, _. split; [reflexivity|]. left. reflexivity.
Defined.

(* ================================================================== *)
(** ** Further properties of [handleSubmit] *)

Lemma first_semicolon_position (m g1 x y : jsstring) :
  Forall (fun c => c <> 59) m -> m ++ x = g1 ++ 59 :: y ->
  (List.length m <= List.length g1)%nat.
Proof.
  intros Hm. revert g1. induction Hm as [|a m Ha _ IH]; intros g1 E; simpl.
  - lia.
  - destruct g1 as [|b g1]; simpl in E.
    + injection E as Ea _. congruence.
    + injection E as _ E'. apply IH in E'. simpl. lia.
Qed.

Lemma readAsDataURL_parses (f : File) :
  file_bytes f <> [] -> file_type f <> [] -> single_line (file_type f) ->
  parseDataUrl (readAsDataURL f)
  = inl {| mimeType_of := file_type f; base64_of := base64 (file_bytes f) |}.
Proof.
  intros Hb Hm Hl. unfold parseDataUrl, readAsDataURL.
  rewrite match_data_url_exact; auto.
  - now apply base64_nonempty.
  - apply base64_single_line.
  - eapply Forall_impl; [|apply base64_alphabet]. now intros c [_ H].
Qed.

(** A file without bytes, of a type without semicolon, has a data URL with
    an empty payload, which the regular expression rejects. *)
Lemma empty_file_is_unparsable (f : File) :
  file_bytes f = [] -> Forall (fun c => c <> 59) (file_type f) ->
  parseDataUrl (readAsDataURL f)
  = inr (ErrorObject (lit "Invalid data URL format")).
Proof.
  intros Hb Hm. unfold parseDataUrl.
  destruct (match_data_url (readAsDataURL f)) as [[g1 g2]|] eqn:E;
    [|reflexivity].
  exfalso. apply match_data_url_inv in E.
  destruct E as (_ & Hg2 & _ & _ & E).
  unfold readAsDataURL in E. rewrite Hb in E. simpl base64 in E.
  apply app_inv_head in E. rewrite app_nil_r in E.
  pose proof (first_semicolon_position _ _ _ _ Hm E) as Hlen.
  apply (f_equal (@List.length _)) in E.
  rewrite !length_app in E. destruct g2; [easy|]. simpl in E. lia.
Qed.

(** X4 (a file that does not parse never reaches the service).  When the
    data URL of the uploaded file is rejected by [parseDataUrl], the
    submission is over as soon as the read has settled: the error slot
    holds "Invalid data URL format", [isLoading] is reset, nothing is left
    suspended, [editImage] is not called, and whatever the remote model
    would have answered makes no difference. *)
Theorem unparsable_file_never_reaches_service (w : World) (f : File)
    (err : Thrown) (out : ServiceOutcome) :
  imageFile (app w) = Some f -> truthy (prompt (app w)) = true ->
  parseDataUrl (readAsDataURL f) = inr err ->
  pending (resume_after_read (List.length (pending w)) Loaded (handleSubmit w))
  = pending w /\
  isLoading
    (app (resume_after_read (List.length (pending w)) Loaded (handleSubmit w)))
  = false /\
  error
    (app (resume_after_read (List.length (pending w)) Loaded (handleSubmit w)))
  = Some (lit "Invalid data URL format") /\
  generatedImageUrl
    (app (resume_after_read (List.length (pending w)) Loaded (handleSubmit w)))
  = None /\
  submit_and_settle Loaded out w
  = resume_after_read (List.length (pending w)) Loaded (handleSubmit w).
Proof.
  intros Hf Hp Hparse.
  assert (Herr : err = ErrorObject (lit "Invalid data URL format")).
  { unfold parseDataUrl in Hparse.
    destruct (match_data_url (readAsDataURL f)) as [[g1 g2]|];
      [discriminate|]. now inversion Hparse. }
  subst err.
  assert (E : resume_after_read (List.length (pending w)) Loaded (handleSubmit w)
              = catch_finally (List.length (pending w))
                  (ErrorObject (lit "Invalid data URL format"))
                  (handleSubmit w)).
  { unfold handleSubmit. rewrite Hf, Hp. unfold resume_after_read.
    cbn [pending set_pending]. rewrite nth_error_snoc.
    cbn [task_stage task_file fileToDataUrl]. now rewrite Hparse. }
  assert (Hpend : pending (catch_finally (List.length (pending w))
                    (ErrorObject (lit "Invalid data URL format"))
                    (handleSubmit w)) = pending w).
  { unfold handleSubmit. rewrite Hf, Hp. unfold catch_finally.
    cbn [pending set_pending upd_app]. apply remove_nth_snoc. }
  unfold submit_and_settle. rewrite E. repeat split.
  - exact Hpend.
  - unfold handleSubmit. rewrite Hf, Hp. reflexivity.
  - unfold resume_after_service. rewrite Hpend.
    replace (nth_error (pending w) (List.length (pending w))) with (@None Task)
      by (symmetry; apply nth_error_None; lia).
    reflexivity.
Qed.

Lemma unparsable_file_never_reaches_service_witness :
  error
    (app (resume_after_read O Loaded
            (handleSubmit
               (dispatch mounted
                  (ImageInputChange (Some (mkFile [] (lit "image/png"))))))))
  = Some (lit "Invalid data URL format").
Proof.
  apply (unparsable_file_never_reaches_service
           (dispatch mounted
              (ImageInputChange (Some (mkFile [] (lit "image/png")))))
           (mkFile [] (lit "image/png"))
           (ErrorObject (lit "Invalid data URL format"))
           (Returned text_then_image)).
  - reflexivity.
  - reflexivity.
  - apply empty_file_is_unparsable; [reflexivity|].
    simpl. repeat (constructor; [discriminate|]). constructor.
Defined.

(** X5 (the generic fallback means a failed read).  After a submission that
    passed the guard, the error slot holds "An unknown error occurred."
    exactly when the file read failed: a rejected data URL and every
    failure of [editImage] come with a message of their own. *)
Theorem unknown_error_iff_read_failed (w : World) (f : File)
    (o : ReadOutcome) (out : ServiceOutcome) :
  imageFile (app w) = Some f -> truthy (prompt (app w)) = true ->
  (error (app (submit_and_settle o out w))
   = Some (lit "An unknown error occurred.")
   <-> o = ReadError).
Proof.
  intros Hf Hp. rewrite (submit_and_settle_eq w f o out Hf Hp).
  unfold submission_outcome, fileToDataUrl. destruct o.
  - split; [|discriminate]. intros H. exfalso. revert H.
    unfold parseDataUrl.
    destruct (match_data_url (readAsDataURL f)) as [[g1 g2]|];
      [|simpl; intros H; inversion H; discriminate].
    unfold editImage.
    destruct (editImage_try _ _ _ _) as [url|[m|]]; simpl; intros H;
      inversion H; discriminate.
  - split; reflexivity.
Qed.

Lemma unknown_error_iff_read_failed_witness :
  error (app (submit_and_settle ReadError (Returned text_then_image) ready))
  = Some (lit "An unknown error occurred.").
Proof.
  apply (unknown_error_iff_read_failed ready man_png ReadError
           (Returned text_then_image)); reflexivity.
Defined.

(** X6 (a submission end to end).  For an uploaded file with bytes and a
    single-line type, once the read has settled [editImage] is called with
    the base64 encoding of the file's bytes, the file's declared type and
    the prompt as it was at the click; and when the response holds an
    inline part, the submission ends with the data URL of the first such
    part in the generated-image slot, no error, and [isLoading] reset. *)
Theorem submission_end_to_end (w : World) (f : File)
    (response : GenerateContentResponse)
    (before after : list Part) (part : Part) (d : InlineData) :
  imageFile (app w) = Some f -> truthy (prompt (app w)) = true ->
  file_bytes f <> [] -> file_type f <> [] -> single_line (file_type f) ->
  response_parts response = before ++ part :: after ->
  Forall (fun q => inlineData q = None) before ->
  inlineData part = Some d ->
  pending (resume_after_read (List.length (pending w)) Loaded (handleSubmit w))
  = pending w
    ++ [mkTask f (prompt (app w))
          (CallingService (base64 (file_bytes f)) (file_type f))] /\
  generatedImageUrl (app (submit_and_settle Loaded (Returned response) w))
  = Some (inline_data_url d) /\
  error (app (submit_and_settle Loaded (Returned response) w)) = None /\
  isLoading (app (submit_and_settle Loaded (Returned response) w)) = false /\
  pending (submit_and_settle Loaded (Returned response) w) = pending w.
Proof.
  intros Hf Hp Hb Hm Hl E Hbefore Hpart.
  assert (Hparse : parseDataUrl (readAsDataURL f)
                   = inl {| mimeType_of := file_type f;
                            base64_of := base64 (file_bytes f) |}).
  { now apply readAsDataURL_parses. }
  split.
  - unfold handleSubmit. rewrite Hf, Hp. unfold resume_after_read.
    cbn [pending set_pending]. rewrite nth_error_snoc.
    cbn [task_stage task_file task_prompt fileToDataUrl]. rewrite Hparse.
    cbn [pending set_pending base64_of mimeType_of].
    apply replace_nth_snoc.
  - rewrite (submit_and_settle_eq w f _ _ Hf Hp).
    unfold submission_outcome, fileToDataUrl. rewrite Hparse.
    unfold editImage, editImage_try. rewrite E.
    rewrite (scan_parts_first before after part d Hbefore Hpart).
    repeat split.
Qed.

(* ================================================================== *)
(** ** The blob URLs along the events of the page *)

Lemma revoked_twice_S (n : nat) :
  revoked_twice (S n) = revoked_twice n ++ [n; n].
Proof.
  unfold revoked_twice. rewrite seq_S, flat_map_app. simpl. reflexivity.
Qed.

Lemma eqb_succ_r (u : nat) : Nat.eqb u (S u) = false.
Proof. apply Nat.eqb_neq. lia. Qed.

Lemma eqb_succ_l (u : nat) : Nat.eqb (S u) u = false.
Proof. apply Nat.eqb_neq. lia. Qed.

Lemma blobs_select (w : World) (f : File) :
  blobs_ok w -> effect w <> None -> isLoading (app w) = false ->
  blobs_ok (dispatch w (ImageInputChange (Some f))) /\
  imageFile (app (dispatch w (ImageInputChange (Some f)))) = Some f.
Proof.
  intros Hb Hm L. unfold dispatch, blobs_ok in *.
  destruct w as [a [dep|] n store log pend]; [|easy]. cbn in *.
  rewrite L. destruct Hb as (-> & -> & Hb).
  destruct a as [fi pu pr gi il er]. cbn in *.
  destruct pu as [u|], fi as [f0|]; try easy; destruct Hb as [-> ->].
  - cbn -[Nat.eqb seq]. rewrite Nat.eqb_refl. cbn -[Nat.eqb seq].
    rewrite eqb_succ_r. cbn -[Nat.eqb seq].
    rewrite eqb_succ_l. cbn -[Nat.eqb seq]. repeat split.
    rewrite revoked_twice_S, <- app_assoc. reflexivity.
  - cbn. repeat split.
Qed.

Lemma handle_keeps_blobs (e : Event) (w : World) :
  (forall f, e <> ImageInputChange (Some f)) -> e <> Unmount ->
  imageFile (app (handle e w)) = imageFile (app w) /\
  imagePreviewUrl (app (handle e w)) = imagePreviewUrl (app w) /\
  effect (handle e w) = effect w /\
  next_url (handle e w) = next_url w /\
  blob_store (handle e w) = blob_store w /\
  revoke_log (handle e w) = revoke_log w.
Proof.
  intros Hsel Hun. destruct e as [[f|]|text| |i o|i out|]; simpl.
  - now elim (Hsel f).
  - destruct (isLoading (app w)); repeat split.
  - destruct (isLoading (app w)); repeat split.
  - destruct (submit_disabled (app w)); [repeat split|].
    unfold handleSubmit.
    destruct (imageFile (app w)) eqn:Ef; [|repeat split; exact Ef].
    destruct (truthy (prompt (app w))); repeat split; exact Ef.
  - unfold resume_after_read.
    destruct (nth_error (pending w) i); [|repeat split].
    destruct (task_stage t); [|repeat split].
    destruct (fileToDataUrl (task_file t) o); [|repeat split].
    destruct (parseDataUrl a); repeat split.
  - unfold resume_after_service.
    destruct (nth_error (pending w) i); [|repeat split].
    destruct (task_stage t); [repeat split|].
    destruct (editImage _ _ _ _); repeat split.
  - easy.
Qed.


Lemma commit_synced (w : World) :
  effect w = Some (imagePreviewUrl (app w)) -> commit w = w.
Proof.
  intros E. unfold commit. rewrite E. now rewrite option_url_eqb_refl.
Qed.

Lemma blobs_ok_frame (w w' : World) :
  imageFile (app w') = imageFile (app w) /\
  imagePreviewUrl (app w') = imagePreviewUrl (app w) /\
  effect w' = effect w /\
  next_url w' = next_url w /\
  blob_store w' = blob_store w /\
  revoke_log w' = revoke_log w ->
  blobs_ok w -> blobs_ok w'.
Proof.
  intros (E1 & E2 & E3 & E4 & E5 & E6). unfold blobs_ok.
  now rewrite E1, E2, E3, E4, E5, E6.
Qed.

Lemma blobs_other (w : World) (e : Event) :
  (forall f, e <> ImageInputChange (Some f)) -> e <> Unmount ->
  blobs_ok w -> blobs_ok (dispatch w e).
Proof.
  intros Hsel Hun Hb. unfold dispatch.
  destruct (effect w) as [dep|] eqn:Em; [|assumption].
  pose proof (handle_keeps_blobs e w Hsel Hun) as Hk.
  assert (Hb' : blobs_ok (handle e w)) by (eapply blobs_ok_frame; eauto).
  rewrite commit_synced; [assumption|].
  destruct Hk as (_ & E2 & E3 & _). rewrite E3, E2, Em. f_equal.
  unfold blobs_ok in Hb. rewrite Em in Hb. apply Hb.
Qed.

Lemma blobs_unmount (w : World) : blobs_ok w -> blobs_ok (dispatch w Unmount).
Proof.
  intros Hb. unfold dispatch, blobs_ok in *.
  destruct w as [a [dep|] n store log pend]; [|assumption]. cbn in *.
  destruct Hb as (-> & -> & Hb).
  destruct a as [fi pu pr gi il er]. cbn in *.
  destruct pu as [u|], fi as [f0|]; try easy; destruct Hb as [-> ->].
  - cbn -[Nat.eqb seq]. rewrite Nat.eqb_refl. cbn -[Nat.eqb seq]. split; reflexivity.
  - cbn. split; reflexivity.
Qed.

Lemma dispatch_blobs_ok (w : World) (e : Event) :
  blobs_ok w -> blobs_ok (dispatch w e).
Proof.
  intros Hb. destruct e as [[f|]|text| |i o|i out|];
    try (apply blobs_other; [intros f'; discriminate|discriminate|assumption]).
  - destruct (effect w) as [dep|] eqn:Em;
      [|unfold dispatch; now rewrite Em].
    destruct (isLoading (app w)) eqn:L.
    + unfold dispatch. rewrite Em. simpl. rewrite L.
      rewrite commit_synced; [assumption|]. rewrite Em. f_equal.
      unfold blobs_ok in Hb. rewrite Em in Hb. apply Hb.
    + apply blobs_select; auto. congruence.
  - now apply blobs_unmount.
Qed.

Lemma run_blobs_ok (es : list Event) (w : World) :
  blobs_ok w -> blobs_ok (run w es).
Proof.
  revert w. induction es as [|e es IH]; intros w H; simpl; [assumption|].
  apply IH. now apply dispatch_blobs_ok.
Qed.

Lemma mounted_blobs_ok : blobs_ok mounted.
Proof. cbn. repeat split. Qed.

(** *** The result slots along the events of the page *)

Lemma scan_parts_nonempty (ps : list Part) (url : jsstring) :
  scan_parts ps = Some url -> url <> [].
Proof.
  induction ps as [|q ps IH]; simpl; [discriminate|].
  destruct (inlineData q); [|exact IH].
  intros H; inversion H. discriminate.
Qed.

Lemma editImage_outcomes (b m p : jsstring)
    (g : GenerateContentRequest -> ServiceOutcome) :
  (exists url, editImage b m p g = Resolved url /\ url <> []) \/
  (exists message,
     editImage b m p g = Rejected (ErrorObject message) /\
     (message = lit "An unknown error occurred while editing the image." \/
      exists s, message = lit "Failed to edit image: " ++ s)).
Proof.
  unfold editImage, editImage_try.
  destruct (g (edit_request b m p)) as [response|[s|]].
  - destruct (scan_parts (response_parts response)) as [url|] eqn:E.
    + left. exists url. split; [reflexivity|].
      eapply scan_parts_nonempty; eauto.
    + right. eexists. split; [reflexivity|]. right. eauto.
  - right. eexists. split; [reflexivity|]. right. eauto.
  - right. eexists. split; [reflexivity|]. left. reflexivity.
Qed.

Lemma results_ok_frame (w w' : World) :
  generatedImageUrl (app w') = generatedImageUrl (app w) ->
  error (app w') = error (app w) ->
  isLoading (app w') = isLoading (app w) ->
  results_ok w -> results_ok w'.
Proof.
  intros E1 E2 E3. unfold results_ok. now rewrite E1, E2, E3.
Qed.

Lemma results_ok_cleared (w : World) :
  generatedImageUrl (app w) = None -> error (app w) = None ->
  results_ok w.
Proof.
  intros E1 E2. unfold results_ok. rewrite E1, E2.
  repeat split; auto; discriminate.
Qed.

Lemma results_ok_failed (w : World) (message : jsstring) :
  isLoading (app w) = false -> generatedImageUrl (app w) = None ->
  error (app w) = Some message -> submission_message message ->
  results_ok w.
Proof.
  intros E0 E1 E2 Hm. unfold results_ok. rewrite E0, E1, E2.
  repeat split; auto; try discriminate.
  intros m' H. now inversion H; subst.
Qed.

Lemma results_ok_succeeded (w : World) (url : jsstring) :
  isLoading (app w) = false -> generatedImageUrl (app w) = Some url ->
  error (app w) = None -> url <> [] ->
  results_ok w.
Proof.
  intros E0 E1 E2 Hu. unfold results_ok. rewrite E0, E1, E2.
  repeat split; auto; try discriminate.
  intros u' H. now inversion H; subst.
Qed.

Lemma handle_results_ok (e : Event) (w : World) :
  one_or_none w -> results_ok w -> results_ok (handle e w).
Proof.
  intros Hone Hr. destruct e as [file|text| |i o|i out|]; simpl.
  - destruct (isLoading (app w)) eqn:L; [assumption|].
    destruct file as [f|]; [|assumption].
    apply results_ok_cleared; reflexivity.
  - destruct (isLoading (app w)) eqn:L; [assumption|].
    eapply results_ok_frame; eauto.
  - destruct (submit_disabled (app w)) eqn:D; [assumption|].
    unfold submit_disabled in D.
    apply orb_false_iff in D. destruct D as [D Hp].
    apply orb_false_iff in D. destruct D as [L Hf].
    apply negb_false_iff in Hp. unfold handleSubmit.
    destruct (imageFile (app w)); [|discriminate]. rewrite Hp.
    apply results_ok_cleared; reflexivity.
  - unfold resume_after_read.
    destruct Hone as [[L [t Ht]]|[L Ht]]; rewrite Ht;
      [|destruct i; assumption].
    destruct i as [|i]; [|destruct i; assumption]. cbn [nth_error].
    destruct (task_stage t); [|assumption].
    destruct Hr as (Hload & _). destruct (Hload L) as [Hg He].
    destruct o; cbn [fileToDataUrl].
    + unfold parseDataUrl.
      destruct (match_data_url (readAsDataURL (task_file t))) as [[g1 g2]|].
      * eapply results_ok_frame; eauto.
        apply results_ok_cleared; assumption.
      * eapply results_ok_failed; try reflexivity; auto.
        right; left; reflexivity.
    + eapply results_ok_failed; try reflexivity; auto.
      left; reflexivity.
  - unfold resume_after_service.
    destruct Hone as [[L [t Ht]]|[L Ht]]; rewrite Ht;
      [|destruct i; assumption].
    destruct i as [|i]; [|destruct i; assumption]. cbn [nth_error].
    destruct (task_stage t) as [|b m]; [assumption|].
    destruct Hr as (Hload & _). destruct (Hload L) as [Hg He].
    destruct (editImage_outcomes b m (task_prompt t) (fun _ => out))
      as [(url & -> & Hu)|(message & -> & Hm)].
    + eapply results_ok_succeeded; try reflexivity; auto.
    + eapply results_ok_failed; try reflexivity; auto.
      destruct Hm as [->|Hm]; [right; right; left; reflexivity|].
      right; right; right; exact Hm.
  - unfold unmount. destruct (effect w) as [dep|]; [|assumption].
    destruct dep; exact Hr.
Qed.

Lemma dispatch_results_ok (w : World) (e : Event) :
  in_step w -> results_ok w -> results_ok (dispatch w e).
Proof.
  intros [_ Hone] Hr. unfold dispatch.
  destruct (effect w); [|assumption].
  destruct (commit_frame (handle e w)) as (Ha & _).
  eapply results_ok_frame; try (rewrite Ha; reflexivity).
  now apply handle_results_ok.
Qed.

Lemma run_results_ok (es : list Event) (w : World) :
  in_step w -> results_ok w -> results_ok (run w es).
Proof.
  revert w. induction es as [|e es IH]; intros w Hs Hr; simpl; [assumption|].
  apply IH; [now apply dispatch_in_step|now apply dispatch_results_ok].
Qed.

Lemma mounted_results_ok : results_ok mounted.
Proof. apply results_ok_cleared; reflexivity. Qed.

(** *** The suspended submission along the events of the page *)

Lemma task_current_frame (w w' : World) (t : Task) :
  imageFile (app w') = imageFile (app w) ->
  prompt (app w') = prompt (app w) ->
  task_current w t -> task_current w' t.
Proof.
  intros E1 E2. unfold task_current. now rewrite E1, E2.
Qed.

Lemma pending_current_nil (w : World) : pending w = [] -> pending_current w.
Proof. intros E t H. rewrite E in H. inversion H. Qed.

Lemma handle_pending_current (e : Event) (w : World) :
  one_or_none w -> pending_current w -> pending_current (handle e w).
Proof.
  intros Hone Hp. destruct e as [file|text| |i o|i out|]; simpl.
  - destruct (isLoading (app w)) eqn:L; [assumption|].
    destruct file as [f|]; [|assumption].
    destruct Hone as [[H _]|[_ H]]; [congruence|].
    apply pending_current_nil. unfold handleImageChange. simpl.
    destruct (imagePreviewUrl (app w)); exact H.
  - destruct (isLoading (app w)) eqn:L; [assumption|].
    destruct Hone as [[H _]|[_ H]]; [congruence|].
    apply pending_current_nil. exact H.
  - destruct (submit_disabled (app w)) eqn:D; [assumption|].
    unfold submit_disabled in D.
    apply orb_false_iff in D. destruct D as [D Hpr].
    apply orb_false_iff in D. destruct D as [L Hf].
    apply negb_false_iff in Hpr.
    destruct Hone as [[H _]|[_ H]]; [congruence|].
    unfold handleSubmit.
    destruct (imageFile (app w)) as [f|] eqn:Ef; [|discriminate].
    rewrite Hpr. intros t Ht. cbn [pending set_pending] in Ht.
    rewrite H in Ht. destruct Ht as [<-|[]].
    unfold task_current. cbn. auto.
  - unfold resume_after_read.
    destruct Hone as [[L [t Ht]]|[L Ht]]; rewrite Ht;
      [|destruct i; assumption].
    destruct i as [|i]; [|destruct i; assumption]. cbn [nth_error].
    assert (Hc : task_current w t) by (apply Hp; rewrite Ht; now left).
    destruct (task_stage t) eqn:St; [|assumption].
    destruct o; cbn [fileToDataUrl].
    + destruct (parseDataUrl (readAsDataURL (task_file t))) as [p|err] eqn:E.
      * intros t' Ht'. cbn [pending set_pending replace_nth] in Ht'.
        destruct Ht' as [<-|[]].
        destruct Hc as (H1 & H2 & H3 & _). unfold task_current. cbn.
        repeat split; auto. now destruct p.
      * apply pending_current_nil. unfold catch_finally. cbn.
        now rewrite Ht.
    + apply pending_current_nil. unfold catch_finally. cbn. now rewrite Ht.
  - unfold resume_after_service.
    destruct Hone as [[L [t Ht]]|[L Ht]]; rewrite Ht;
      [|destruct i; assumption].
    destruct i as [|i]; [|destruct i; assumption]. cbn [nth_error].
    destruct (task_stage t) as [|b m]; [assumption|].
    destruct (editImage _ _ _ _); apply pending_current_nil;
      unfold succeed_finally, catch_finally; cbn; now rewrite Ht.
  - unfold unmount. destruct (effect w) as [dep|]; [|assumption].
    destruct dep; exact Hp.
Qed.

Lemma dispatch_pending_current (w : World) (e : Event) :
  in_step w -> pending_current w -> pending_current (dispatch w e).
Proof.
  intros [_ Hone] Hp. unfold dispatch.
  destruct (effect w); [|assumption].
  destruct (commit_frame (handle e w)) as (Ha & Hpe & _).
  intros t Ht. rewrite Hpe in Ht.
  eapply task_current_frame; try (rewrite Ha; reflexivity).
  now apply (handle_pending_current e w Hone Hp).
Qed.

Lemma run_pending_current (es : list Event) (w : World) :
  in_step w -> pending_current w -> pending_current (run w es).
Proof.
  revert w. induction es as [|e es IH]; intros w Hs Hp; simpl; [assumption|].
  apply IH; [now apply dispatch_in_step|now apply dispatch_pending_current].
Qed.

(* ================================================================== *)
(** ** What holds along every sequence of page events *)

Lemma submission_message_not_validation (message : jsstring) :
  submission_message message ->
  message <> [] /\ message <> validation_message.
Proof.
  intros [->|[->|[->|(s & ->)]]]; split; discriminate.
Qed.

(** X7 (the result slots).  Along every sequence of page events: while
    [isLoading] is set neither a generated image nor an error is stored;
    the two are never stored together; and whatever is stored is rendered
    (a stored URL or message is never the empty string). *)
Theorem result_slots_along_page (es : list Event) :
  (isLoading (app (run mounted es)) = true ->
   generatedImageUrl (app (run mounted es)) = None /\
   error (app (run mounted es)) = None) /\
  (generatedImageUrl (app (run mounted es)) = None \/
   error (app (run mounted es)) = None) /\
  (generatedImageUrl (app (run mounted es)) <> None ->
   generated_image_shown (app (run mounted es)) = true) /\
  (error (app (run mounted es)) <> None ->
   error_box_shown (app (run mounted es)) = true).
Proof.
  pose proof (run_results_ok es mounted mounted_in_step mounted_results_ok)
    as (H1 & H2 & H3 & H4).
  repeat split; try (apply H1; assumption); try exact H2.
  - intros Hg. unfold generated_image_shown.
    destruct (generatedImageUrl (app (run mounted es))) as [url|]; [|easy].
    specialize (H4 url eq_refl). now destruct url.
  - intros He. unfold error_box_shown.
    destruct (error (app (run mounted es))) as [m|]; [|easy].
    destruct (submission_message_not_validation m (H3 m eq_refl)) as [Hne _].
    now destruct m.
Qed.

Lemma result_slots_along_page_witness :
  isLoading (app (run mounted [ImageInputChange (Some man_png); GenerateClick]))
  = true /\
  error (app (run mounted [ImageInputChange (Some man_png); GenerateClick]))
  = None.
Proof.
  split; [reflexivity|].
  apply (result_slots_along_page
           [ImageInputChange (Some man_png); GenerateClick]).
  reflexivity.
Defined.

(** X8 (the messages of the page).  Along every sequence of page events a
    stored error is one of: "An unknown error occurred.", "Invalid data
    URL format", "An unknown error occurred while editing the image.", or
    "Failed to edit image: " followed by some text.  The validation message
    of [handleSubmit] never appears: the button is disabled whenever the
    guard would fire. *)
Theorem error_messages_along_page (es : list Event) (message : jsstring) :
  error (app (run mounted es)) = Some message ->
  submission_message message /\
  message <> lit "Please upload an image and provide a prompt.".
Proof.
  intros H.
  pose proof (run_results_ok es mounted mounted_in_step mounted_results_ok)
    as (_ & _ & H3 & _).
  split; [now apply H3|].
  now apply submission_message_not_validation, H3.
Qed.

Lemma error_messages_along_page_witness :
  error (app (run mounted [ImageInputChange (Some man_png); GenerateClick;
                           FileReadSettles O ReadError]))
  = Some (lit "An unknown error occurred.") /\
  lit "An unknown error occurred."
  <> lit "Please upload an image and provide a prompt.".
Proof.
  split; [reflexivity|].
  apply (error_messages_along_page
           [ImageInputChange (Some man_png); GenerateClick;
            FileReadSettles O ReadError]).
  reflexivity.
Defined.

(** X9 (a pending submission is the current one).  Along every sequence of
    page events, a suspended submission was started for the image that is
    uploaded now and the prompt that is in the text area now; and once
    [editImage] has been called, its first two arguments are the payload
    and the type [parseDataUrl] finds in that image's data URL. *)
Theorem pending_submission_is_current (es : list Event) (t : Task) :
  In t (pending (run mounted es)) ->
  imageFile (app (run mounted es)) = Some (task_file t) /\
  prompt (app (run mounted es)) = task_prompt t /\
  (forall base64Data mimeType0,
     task_stage t = CallingService base64Data mimeType0 ->
     parseDataUrl (readAsDataURL (task_file t))
     = inl {| base64_of := base64Data; mimeType_of := mimeType0 |}).
Proof.
  intros Ht.
  pose proof (run_pending_current es mounted mounted_in_step
                (pending_current_nil mounted eq_refl) t Ht)
    as (H1 & H2 & _ & H4).
  repeat split; auto.
  intros b m St. now rewrite St in H4.
Qed.

Lemma pending_submission_is_current_witness :
  imageFile
    (app (run mounted [ImageInputChange (Some man_png); GenerateClick;
                       FileReadSettles O Loaded]))
  = Some man_png.
Proof.
  apply (pending_submission_is_current
           [ImageInputChange (Some man_png); GenerateClick;
            FileReadSettles O Loaded]
           (mkTask man_png initial_prompt
              (CallingService (lit "TWFu") (lit "image/png")))).
  left. reflexivity.
Defined.

(** X10 (the preview is live).  While the component is mounted, the
    preview URL resolves to the uploaded file, and it is not among the
    revoked URLs: what is displayed has not been released. *)
Theorem preview_is_the_uploaded_file (es : list Event) :
  effect (run mounted es) <> None ->
  preview (run mounted es) = imageFile (app (run mounted es)) /\
  (forall u, imagePreviewUrl (app (run mounted es)) = Some u ->
             ~ In u (revoke_log (run mounted es))).
Proof.
  intros Hm. pose proof (run_blobs_ok es mounted mounted_blobs_ok) as Hb.
  unfold blobs_ok in Hb. unfold preview.
  destruct (effect (run mounted es)) as [dep|]; [|easy].
  destruct Hb as (_ & Hlog & Hb).
  destruct (imagePreviewUrl (app (run mounted es))) as [u|],
           (imageFile (app (run mounted es))) as [f|]; try easy.
  destruct Hb as [Hs Hn]. rewrite Hs, Hlog, Hn. simpl.
  rewrite Nat.eqb_refl. split; [reflexivity|].
  intros u' E. inversion E; subst u'. unfold revoked_twice.
  intros Hin. apply in_flat_map in Hin. destruct Hin as (x & Hx & Hin).
  apply in_seq in Hx. simpl in Hin. lia.
Qed.

Lemma preview_is_the_uploaded_file_witness :
  preview (run mounted [ImageInputChange (Some man_png);
                        ImageInputChange (Some cat_jpeg)])
  = Some cat_jpeg.
Proof.
  apply (preview_is_the_uploaded_file
           [ImageInputChange (Some man_png); ImageInputChange (Some cat_jpeg)]).
  discriminate.
Defined.

Lemma dispatch_unmount_effect (w : World) : effect (dispatch w Unmount) = None.
Proof.
  unfold dispatch. destruct (effect w) as [dep|] eqn:E; [|exact E].
  simpl. unfold unmount. rewrite E. reflexivity.
Qed.

Lemma run_app (es es' : list Event) (w : World) :
  run w (es ++ es') = run (run w es) es'.
Proof. unfold run. apply fold_left_app. Qed.

(** X11 (no blob URL leaks).  At any time at most one blob URL is live,
    and once the component is unmounted none is. *)
Theorem no_blob_url_leaks (es : list Event) :
  (List.length (blob_store (run mounted es)) <= 1)%nat /\
  blob_store (run mounted (es ++ [Unmount])) = [].
Proof.
  split.
  - pose proof (run_blobs_ok es mounted mounted_blobs_ok) as Hb.
    unfold blobs_ok in Hb.
    destruct (effect (run mounted es)) as [dep|].
    + destruct Hb as (_ & _ & Hb).
      destruct (imagePreviewUrl (app (run mounted es))),
               (imageFile (app (run mounted es))); try easy;
        destruct Hb as [-> _]; simpl; lia.
    + destruct Hb as [-> _]. simpl. lia.
  - pose proof (run_blobs_ok (es ++ [Unmount]) mounted mounted_blobs_ok) as Hb.
    unfold blobs_ok in Hb. rewrite run_app in *. simpl in *.
    rewrite dispatch_unmount_effect in Hb. apply Hb.
Qed.

Lemma count_revoked_twice (n u : nat) :
  count_occ Nat.eq_dec (revoked_twice n) u
  = if Nat.ltb u n then 2%nat else O.
Proof.
  induction n as [|n IH].
  - reflexivity.
  - rewrite revoked_twice_S, count_occ_app. unfold ObjectURL in *.
    rewrite IH. simpl.
    destruct (Nat.eq_dec n u) as [->|Hne].
    + rewrite Nat.ltb_irrefl.
      replace (Nat.ltb u (S u)) with true
        by (symmetry; apply Nat.ltb_lt; lia).
      reflexivity.
    + destruct (Nat.ltb u n) eqn:L.
      * apply Nat.ltb_lt in L.
        replace (Nat.ltb u (S n)) with true
          by (symmetry; apply Nat.ltb_lt; lia).
        reflexivity.
      * apply Nat.ltb_ge in L.
        replace (Nat.ltb u (S n)) with false
          by (symmetry; apply Nat.ltb_ge; lia).
        reflexivity.
Qed.

(** X12 (how often each URL is revoked).  Along every sequence of page
    events, a preview URL that has been superseded by a later selection has
    been passed to [URL.revokeObjectURL] exactly twice; the URL on display
    not at all while the component is mounted, and exactly once after the
    unmount; a URL not yet created never. *)
Theorem revocations_along_page (es : list Event) (u : ObjectURL) :
  ((S u < next_url (run mounted es))%nat ->
   count_occ Nat.eq_dec (revoke_log (run mounted es)) u = 2%nat) /\
  (S u = next_url (run mounted es) ->
   count_occ Nat.eq_dec (revoke_log (run mounted es)) u
   = match effect (run mounted es) with Some _ => O | None => 1%nat end) /\
  ((next_url (run mounted es) <= u)%nat ->
   count_occ Nat.eq_dec (revoke_log (run mounted es)) u = O).
Proof.
  pose proof (run_blobs_ok es mounted mounted_blobs_ok) as Hb.
  unfold blobs_ok in Hb.
  assert (Hlog : revoke_log (run mounted es)
                 = revoked_twice (pred (next_url (run mounted es)))
                   ++ match effect (run mounted es), next_url (run mounted es)
                      with
                      | None, S v => [v]
                      | _, _ => []
                      end).
  { destruct (effect (run mounted es)).
    - destruct Hb as (_ & -> & _). now rewrite app_nil_r.
    - destruct Hb as (_ & ->). reflexivity. }
  rewrite Hlog, count_occ_app, count_revoked_twice. clear Hlog Hb.
  destruct (next_url (run mounted es)) as [|n]; simpl pred.
  - repeat split; intros H; try lia.
    destruct (effect (run mounted es)); reflexivity.
  - repeat split; intros H.
    + replace (Nat.ltb u n) with true by (symmetry; apply Nat.ltb_lt; lia).
      destruct (effect (run mounted es)); simpl; [reflexivity|].
      destruct (Nat.eq_dec n u); [lia|reflexivity].
    + inversion H; subst n. rewrite Nat.ltb_irrefl.
      destruct (effect (run mounted es)); simpl; [reflexivity|].
      destruct (Nat.eq_dec u u); [reflexivity|easy].
    + replace (Nat.ltb u n) with false by (symmetry; apply Nat.ltb_ge; lia).
      destruct (effect (run mounted es)); simpl; [reflexivity|].
      destruct (Nat.eq_dec n u); [lia|reflexivity].
Qed.

Lemma revocations_along_page_witness :
  count_occ Nat.eq_dec
    (revoke_log (run mounted [ImageInputChange (Some man_png);
                              ImageInputChange (Some cat_jpeg);
                              ImageInputChange (Some man_png)])) 1%nat
  = 2%nat.
Proof.
  apply (revocations_along_page
           [ImageInputChange (Some man_png); ImageInputChange (Some cat_jpeg);
            ImageInputChange (Some man_png)] 1%nat).
  simpl. lia.
Defined.

(** X13 (the inputs are inert while loading).  Along every sequence of page
    events, when [isLoading] is set a change of the file input and an edit
    of the prompt leave the whole state as it is: the image and the prompt
    of the pending submission cannot be replaced under it. *)
Theorem inputs_ignored_while_loading (es : list Event) (file : option File)
    (text : jsstring) :
  isLoading (app (run mounted es)) = true ->
  dispatch (run mounted es) (ImageInputChange file) = run mounted es /\
  dispatch (run mounted es) (PromptInput text) = run mounted es.
Proof.
  intros L. pose proof (run_in_step es mounted mounted_in_step) as Hinv.
  destruct (loading_disables_controls (run mounted es) file text L)
    as (H1 & H2 & _).
  unfold dispatch. destruct (effect (run mounted es)); [|auto].
  rewrite H1, H2. split; now apply commit_in_step.
Qed.

Lemma inputs_ignored_while_loading_witness :
  dispatch (run mounted [ImageInputChange (Some man_png); GenerateClick])
           (ImageInputChange (Some cat_jpeg))
  = run mounted [ImageInputChange (Some man_png); GenerateClick].
Proof.
  apply (inputs_ignored_while_loading
           [ImageInputChange (Some man_png); GenerateClick]
           (Some cat_jpeg) []).
  reflexivity.
Defined.

(** X14 (selecting an image replaces everything).  On the mounted page,
    outside Loading, choosing a file makes it the uploaded image and the
    displayed preview, clears the generated image and the error, and keeps
    the prompt; nothing is submitted. *)
Theorem selecting_an_image_replaces (es : list Event) (f : File) :
  effect (run mounted es) <> None ->
  isLoading (app (run mounted es)) = false ->
  imageFile (app (dispatch (run mounted es) (ImageInputChange (Some f))))
  = Some f /\
  preview (dispatch (run mounted es) (ImageInputChange (Some f))) = Some f /\
  generatedImageUrl
    (app (dispatch (run mounted es) (ImageInputChange (Some f)))) = None /\
  error (app (dispatch (run mounted es) (ImageInputChange (Some f)))) = None /\
  prompt (app (dispatch (run mounted es) (ImageInputChange (Some f))))
  = prompt (app (run mounted es)) /\
  isLoading (app (dispatch (run mounted es) (ImageInputChange (Some f))))
  = false /\
  pending (dispatch (run mounted es) (ImageInputChange (Some f))) = [].
Proof.
  intros Hm L.
  pose proof (run_in_step es mounted mounted_in_step) as [_ Hone].
  pose proof (run_blobs_ok es mounted mounted_blobs_ok) as Hb.
  set (w := run mounted es) in *.
  destruct (blobs_select w f Hb Hm L) as [Hb' Hf].
  assert (Hp : pending w = []).
  { destruct Hone as [[H _]|[_ H]]; [congruence|exact H]. }
  assert (Hw : dispatch w (ImageInputChange (Some f))
               = commit (handleImageChange (Some f) w)).
  { unfold dispatch. destruct (effect w); [|easy]. simpl. now rewrite L. }
  destruct (commit_frame (handleImageChange (Some f) w)) as (Ha & Hpe & _).
  assert (Hm' : effect (dispatch w (ImageInputChange (Some f))) <> None).
  { rewrite Hw. unfold commit.
    assert (He : effect (handleImageChange (Some f) w) = effect w).
    { unfold handleImageChange. simpl. apply revoke_if_set_effect. }
    rewrite He. destruct (effect w) as [dep|]; [|easy].
    destruct (option_url_eqb dep _); [now rewrite He|discriminate]. }
  split; [exact Hf|]. split.
  - unfold blobs_ok in Hb'. unfold preview.
    destruct (effect (dispatch w (ImageInputChange (Some f)))); [|easy].
    destruct Hb' as (_ & _ & Hb'). rewrite Hf in Hb'.
    destruct (imagePreviewUrl (app (dispatch w (ImageInputChange (Some f)))));
      [|easy].
    destruct Hb' as [-> _]. simpl. now rewrite Nat.eqb_refl.
  - rewrite Hw, Ha, Hpe. unfold handleImageChange. simpl.
    repeat split; auto.
    + now destruct (imagePreviewUrl (app w)).
    + now destruct (imagePreviewUrl (app w)).
    + destruct (imagePreviewUrl (app w)); exact Hp.
Qed.

Lemma selecting_an_image_replaces_witness :
  preview
    (dispatch
       (run mounted [ImageInputChange (Some man_png); GenerateClick;
                     FileReadSettles O ReadError])
       (ImageInputChange (Some cat_jpeg)))
  = Some cat_jpeg /\
  error
    (app (dispatch
            (run mounted [ImageInputChange (Some man_png); GenerateClick;
                          FileReadSettles O ReadError])
            (ImageInputChange (Some cat_jpeg))))
  = None.
Proof.
  pose proof (selecting_an_image_replaces
                [ImageInputChange (Some man_png); GenerateClick;
                 FileReadSettles O ReadError] cat_jpeg
                ltac:(discriminate) eq_refl) as H.
  split; apply H.
Defined.

Lemma submission_end_to_end_witness :
  generatedImageUrl
    (app (submit_and_settle Loaded (Returned text_then_image) ready))
  = Some (lit "data:image/webp;base64,QUJD").
Proof.
  apply (submission_end_to_end ready man_png text_then_image
           [mkPart None (Some (lit "Here you go"))]
           [mkPart (Some (mkInline (Some (lit "REVG")) None)) None]
           (mkPart (Some (mkInline (Some (lit "QUJD"))
                            (Some (lit "image/webp")))) None)
           (mkInline (Some (lit "QUJD")) (Some (lit "image/webp"))));
    try reflexivity; try discriminate; repeat constructor.
Defined.

(* ================================================================== *)
(** ** Outcomes and progress *)

(** X15 (what [editImage] can answer).  Whatever the remote call does,
    [editImage] either resolves with a string that starts with [data:], or
    rejects with an [Error] instance (never with a raw value) whose message
    is "An unknown error occurred while editing the image." or starts with
    "Failed to edit image: ". *)
Theorem editImage_outcome_shapes (base64Data mimeType0 prompt0 : jsstring)
    (generateContent : GenerateContentRequest -> ServiceOutcome) :
  (exists rest,
     editImage base64Data mimeType0 prompt0 generateContent
     = Resolved (lit "data:" ++ rest)) \/
  (exists message,
     editImage base64Data mimeType0 prompt0 generateContent
     = Rejected (ErrorObject message) /\
     (message = lit "An unknown error occurred while editing the image." \/
      is_service_error message = true)).
Proof.
  unfold editImage, editImage_try.
  destruct (generateContent (edit_request base64Data mimeType0 prompt0))
    as [response|[s|]].
  - destruct (scan_parts (response_parts response)) as [url|] eqn:E.
    + left. revert E. generalize (response_parts response).
      intros ps. induction ps as [|q ps IH]; simpl; [discriminate|].
      destruct (inlineData q); [|exact IH].
      intros H; inversion H. unfold inline_data_url.
      eexists. reflexivity.
    + right. eexists. split; [reflexivity|]. right.
      unfold is_service_error, service_error_marker.
      now rewrite strip_prefix_app.
  - right. eexists. split; [reflexivity|]. right.
    unfold is_service_error, service_error_marker.
    now rewrite strip_prefix_app.
  - right. eexists. split; [reflexivity|]. left. reflexivity.
Qed.

(** X16 (Loading means a submission is pending).  Along every sequence of
    page events, [isLoading] is set exactly when a submission is
    suspended: the loader is never shown with nothing in flight, and
    nothing is in flight without the loader. *)
Theorem loading_iff_pending (es : list Event) :
  isLoading (app (run mounted es)) = true <-> pending (run mounted es) <> [].
Proof.
  pose proof (run_in_step es mounted mounted_in_step) as [_ Hone].
  destruct Hone as [[L [t Ht]]|[L Ht]]; rewrite L, Ht; split;
    intros H; try easy.
Qed.

(** X17 (settling ends Loading on the page).  On the mounted page, whatever
    happened before, once the pending file read and the pending service
    call have settled, with any outcome, [isLoading] is reset and no
    submission is suspended. *)
Theorem settling_ends_loading_on_page (es : list Event) (o : ReadOutcome)
    (out : ServiceOutcome) :
  effect (run mounted es) <> None ->
  isLoading
    (app (run mounted (es ++ [FileReadSettles O o; ServiceSettles O out])))
  = false /\
  pending (run mounted (es ++ [FileReadSettles O o; ServiceSettles O out]))
  = [].
Proof.
  intros Hm. rewrite run_app. now apply settling_leaves_loading.
Qed.

Lemma settling_ends_loading_on_page_witness :
  isLoading
    (app (run mounted
            ([ImageInputChange (Some man_png); GenerateClick]
             ++ [FileReadSettles O Loaded;
                 ServiceSettles O (Threw (ErrorObject (lit "quota exceeded")))])))
  = false.
Proof.
  apply (settling_ends_loading_on_page
           [ImageInputChange (Some man_png); GenerateClick] Loaded
           (Threw (ErrorObject (lit "quota exceeded")))).
  discriminate.
Defined.

(** X18 (a click either is ignored or starts a submission).  Along every
    sequence of page events, a click on Generate changes nothing when the
    button is disabled; when it is enabled (on the mounted page) the guard
    of [handleSubmit] passes: [isLoading] is set, both result slots are
    cleared, and exactly one submission is suspended, for the uploaded
    image and the current prompt, waiting for the file read. *)
Theorem generate_click_on_page (es : list Event) :
  (submit_disabled (app (run mounted es)) = true ->
   dispatch (run mounted es) GenerateClick = run mounted es) /\
  (submit_disabled (app (run mounted es)) = false ->
   effect (run mounted es) <> None ->
   exists f,
     imageFile (app (run mounted es)) = Some f /\
     isLoading (app (dispatch (run mounted es) GenerateClick)) = true /\
     generatedImageUrl (app (dispatch (run mounted es) GenerateClick)) = None /\
     error (app (dispatch (run mounted es) GenerateClick)) = None /\
     pending (dispatch (run mounted es) GenerateClick)
     = [mkTask f (prompt (app (run mounted es))) ReadingFile]).
Proof.
  pose proof (run_in_step es mounted mounted_in_step) as Hinv.
  set (w := run mounted es) in *. split.
  - intros D. unfold dispatch. destruct (effect w); [|reflexivity].
    simpl. rewrite D. now apply commit_in_step.
  - intros D Hm.
    assert (Hw : dispatch w GenerateClick = commit (handleSubmit w)).
    { unfold dispatch. destruct (effect w); [|easy]. simpl. now rewrite D. }
    destruct (commit_frame (handleSubmit w)) as (Ha & Hpe & _).
    rewrite Hw, Ha, Hpe.
    unfold submit_disabled in D.
    apply orb_false_iff in D. destruct D as [D Hp].
    apply orb_false_iff in D. destruct D as [L Hf].
    apply negb_false_iff in Hp.
    assert (Hpend : pending w = []).
    { destruct Hinv as [_ [[H _]|[_ H]]]; [congruence|exact H]. }
    unfold handleSubmit.
    destruct (imageFile (app w)) as [f|]; [|discriminate].
    rewrite Hp. exists f. cbn. rewrite Hpend. repeat split.
Qed.

Lemma generate_click_on_page_witness :
  pending (dispatch (run mounted [ImageInputChange (Some man_png)])
                    GenerateClick)
  = [mkTask man_png initial_prompt ReadingFile].
Proof.
  destruct (generate_click_on_page [ImageInputChange (Some man_png)])
    as [_ H].
  destruct (H eq_refl ltac:(discriminate)) as (f & Hf & _ & _ & _ & Hp).
  rewrite Hp. inversion Hf. reflexivity.
Defined.
